(** * Live chat services of EComm_Gemini_Live (server/gemini_live_service.py,
      server/gemini_live2_service.py, server/app.py)

    A shallow embedding of the session registry, the tool executor, the
    per-turn multiplexing loop of the background task, the chunked TTS
    streaming and the Live2 audio intake.  The remote conversation service,
    the HTTP search endpoint, text-to-speech and frame decoding are oracles
    gathered in an [env] record; everything the Python code does with their
    answers is written out. *)

From Stdlib Require Import String Ascii List Arith Lia ZArith.
From Stdlib Require Import Init.Byte.
From stdpp Require Import base gmap strings list pretty.
Import ListNotations.

(* ------------------------------------------------------------------ *)
(** ** Python values and exceptions *)

(** An exception raised by Python code: its class name and message. *)
Record exn := Exn { exn_class : string; exn_msg : string }.

(** A Python computation that returns normally or raises. *)
Inductive py (A : Type) :=
| Ok (a : A)
| Raise (e : exn).
Arguments Ok {A} a.
Arguments Raise {A} e.

(** [str(e)] of an exception. *)
Definition str_exn (e : exn) : string := exn_msg e.

(** Python truthiness of a string: the empty string is falsy. *)
Definition str_truthy (s : string) : bool :=
  match s with EmptyString => false | _ => true end.

(** Python's [str.strip()] on ASCII whitespace. *)
Definition is_py_space (c : ascii) : bool :=
  match nat_of_ascii c with
  | 32 | 9 | 10 | 11 | 12 | 13 => true
  | _ => false
  end.

Fixpoint lstrip (s : string) : string :=
  match s with
  | EmptyString => EmptyString
  | String c s' => if is_py_space c then lstrip s' else s
  end.

Definition string_rev (s : string) : string :=
  string_of_list_ascii (rev (list_ascii_of_string s)).

Definition py_strip (s : string) : string :=
  string_rev (lstrip (string_rev (lstrip s))).

(** [dict.get(k)] on a string-keyed argument mapping kept in order. *)
Fixpoint dict_get (k : string) (d : list (string * string)) : option string :=
  match d with
  | [] => None
  | (k', v) :: d' => if String.eqb k k' then Some v else dict_get k d'
  end.

(* ------------------------------------------------------------------ *)
(** ** Products and tool results *)

(** A product record as the search endpoint returns it (after
    [normalize_product] in app.py). *)
Record item := Item {
  it_id : string; it_name : string; it_price : string;
  it_image_url : string; it_aisle : string
}.

(** The JSON body of a successful search response; [sd_results] is the
    value of the ["results"] key, [None] when the key is absent. *)
Record search_data := SearchData { sd_results : option (list item) }.

(** What [_execute_function] returns: the search endpoint's JSON body
    ([return data]) or an ["error"] dict. *)
Inductive tool_response :=
| TRData (d : search_data)
| TRError (msg : string).

(** [function_response and "results" in function_response]: an error dict
    has no ["results"] key, and a dict with a ["results"] key is non-empty
    and so truthy. *)
Definition results_of (r : tool_response) : option (list item) :=
  match r with
  | TRData d => sd_results d
  | TRError _ => None
  end.

(** The outcome of [session.get(search_url)] inside [_execute_function]:
    the request raised, or a response with its status, the outcome of
    [await response.json()] and of [await response.text()]. *)
Inductive http_outcome :=
| HttpRaise (e : exn)
| HttpResp (status : Z) (json : py search_data) (text : string).

(* ------------------------------------------------------------------ *)
(** ** External services *)

(** The oracles the services talk to. [tts_client = None] is the
    [self.tts_client = None] set when the TTS client failed to initialise;
    a [Raise] from it is [synthesize_speech] raising. *)
Record env := Env {
  search_http : string -> http_outcome;
  tts_client : option (string -> py (list byte));
  normalize_product : item -> item;
  decode_frame : string -> py (string * list byte)
}.

Definition set_tts (E : env) (t : option (string -> py (list byte))) : env :=
  {| search_http := search_http E; tts_client := t;
     normalize_product := normalize_product E; decode_frame := decode_frame E |}.

(* ------------------------------------------------------------------ *)
(** ** [GeminiLiveService._execute_function] *)

Definition execute_function (E : env) (function_name : string)
    (function_args : list (string * string)) : py tool_response :=
  if String.eqb function_name "search_products" then
    match dict_get "query" function_args with
    | None => Ok (TRError "No query provided")
    | Some query =>
        if negb (str_truthy query) then Ok (TRError "No query provided")
        else
          (* try: ... except Exception as e: *)
          let body : py tool_response :=
            match search_http E query with
            | HttpRaise e => Raise e
            | HttpResp status json text =>
                if Z.eqb status 200 then
                  match json with
                  | Ok data => Ok (TRData data)
                  | Raise e => Raise e
                  end
                else Ok (TRError (String.append "Search failed with status "
                          (String.append (pretty status) (String.append ": " text))))
            end in
          match body with
          | Ok r => Ok r
          | Raise e => Ok (TRError (String.append "Error executing search: " (str_exn e)))
          end
    end
  else Ok (TRError (String.append "Unknown function: " function_name)).

(* ------------------------------------------------------------------ *)
(** ** Events and effects *)

(** Socket.IO emissions towards the client.  [AudioChunk b] is the
    ['receive_audio_chunk'] emission whose ['audio'] field is
    [base64.b64encode(b)]; we keep the raw chunk [b]. *)
Inductive event :=
| ResponseChunk (text : string)
| FunctionResult (name : string) (results : list item)
| ResponseComplete (text : string)
| AudioChunk (chunk : list byte)
| AudioStreamEnd.

(** What goes to the remote conversation service with [session.send]. *)
Inductive outbound :=
| SendInput (text : string) (image : option (string * list byte))
| SendFunctionResponse (id name : string) (content : tool_response).

(** Observable effects of one turn, in order. *)
Inductive effect :=
| Emit (e : event)
| ToRemote (m : outbound)
| CallTool (name : string) (args : list (string * string)).

(* ------------------------------------------------------------------ *)
(** ** [GeminiLiveService.stream_tts_audio] *)

(** [range(start, stop, step)] for [step > 0]; [fuel] bounds the number of
    elements and is [stop] in [py_range]. *)
Fixpoint py_range_go (fuel i stop step : nat) : list nat :=
  match fuel with
  | O => []
  | S fuel' => if i <? stop then i :: py_range_go fuel' (i + step) stop step else []
  end.

Definition py_range (start stop step : nat) : list nat :=
  py_range_go stop start stop step.

(** [audio_bytes[i:i+chunk_size]] *)
Definition py_slice {A} (l : list A) (i j : nat) : list A :=
  firstn (j - i) (skipn i l).

Definition chunk_size : nat := 4096.

Definition tts_chunks (audio_bytes : list byte) : list (list byte) :=
  map (fun i => py_slice audio_bytes i (i + chunk_size))
      (py_range 0 (length audio_bytes) chunk_size).

Definition stream_tts_audio (E : env) (text : string) : list event :=
  match tts_client E with
  | None => []
  | Some synthesize_speech =>
      if negb (str_truthy text) then []
      else
        match synthesize_speech text with
        | Raise _ => []          (* except Exception: logger.error(...) *)
        | Ok audio_bytes =>
            map AudioChunk (tts_chunks audio_bytes) ++ [AudioStreamEnd]
        end
  end.

(* ------------------------------------------------------------------ *)
(** ** [GeminiLiveService._session_background_task]: one turn *)

(** The per-session flags of [self.active_sessions[session_id]] that a turn
    reads and writes.  [attached] is ["socketio"] and ["client_sid"] being
    stored (set together by [process_user_message_socketio]); [rc_sent] is
    ['_response_complete_sent'] and [fr_sent] is ['_function_result_sent']
    (absent keys read as falsy). *)
Record session_data := SessionData {
  connected : bool;
  task_running : bool;
  attached : bool;
  rc_sent : bool;
  fr_sent : bool
}.

Definition set_rc_sent (b : bool) (sd : session_data) : session_data :=
  {| connected := connected sd; task_running := task_running sd;
     attached := attached sd; rc_sent := b; fr_sent := fr_sent sd |}.

Definition set_fr_sent (b : bool) (sd : session_data) : session_data :=
  {| connected := connected sd; task_running := task_running sd;
     attached := attached sd; rc_sent := rc_sent sd; fr_sent := b |}.

(** One function call of a tool-call frame. *)
Record fcall := FCall { fc_id : string; fc_name : string; fc_args : list (string * string) }.

(** A message yielded by [session.receive()], through the attributes the
    loop inspects: [response.text], [response.tool_call.function_calls]
    ([None] when [tool_call] is absent or falsy) and [response.end_of_turn]. *)
Record live_response := LiveResponse {
  r_text : option string;
  r_tool_call : option (list fcall);
  r_end_of_turn : bool
}.

Definition index_error : exn := Exn "IndexError" "list index out of range".
Definition attribute_error : exn :=
  Exn "AttributeError" "'NoneType' object has no attribute 'emit'".

Definition fallback_text : string := "Here you go!".

(** [UnboundLocalError] for a local of [_session_background_task] read
    before any assignment. *)
Definition unbound_local (name : string) : exn :=
  Exn "UnboundLocalError"
    (String.append "cannot access local variable '"
       (String.append name "' where it is not associated with a value")).

(** The locals of [_session_background_task] that outlive one message:
    whether [response] (the variable of [async for response in
    session.receive()]) and [socketio] have been assigned by an earlier
    message.  On a session with no client attached, every assignment of
    [socketio] is [session_data.get("socketio")], that is [None]. *)
Record task_locals := TaskLocals {
  response_bound : bool;
  socketio_bound : bool
}.

(** The locals when the task takes its first message. *)
Definition initial_locals : task_locals := TaskLocals false false.

(** Result of the inner [async for response in session.receive()] loop:
    the loop ended (by [break] or exhaustion) with the session data, the
    accumulated text and the effects, or an exception escaped it. *)
Inductive loop_result :=
| LoopOk (sd : session_data) (accumulated_text : string) (tr : list effect)
| LoopCrash (e : exn) (tr : list effect).

Definition prepend_effects (pre : list effect) (r : loop_result) : loop_result :=
  match r with
  | LoopOk sd acc tr => LoopOk sd acc (pre ++ tr)
  | LoopCrash e tr => LoopCrash e (pre ++ tr)
  end.

(** Step 1 of the loop body: [if response.text: accumulated_text += ...;
    emit 'response_chunk']. *)
Definition text_step (sd : session_data) (acc : string) (r : live_response)
    : string * list effect :=
  match r_text r with
  | Some t =>
      if str_truthy t then
        (String.append acc t, if attached sd then [Emit (ResponseChunk t)] else [])
      else (acc, [])
  | None => (acc, [])
  end.

(** Step 2: the tool-call branch, which always ends with [break]. *)
Definition tool_step (E : env) (lv : task_locals) (sd : session_data) (acc : string)
    (calls : list fcall) : loop_result :=
  match calls with
  | [] => LoopCrash index_error []
  | c :: _ =>
      let function_name := fc_name c in
      let function_args := fc_args c in
      let tr0 := [CallTool function_name function_args] in
      match execute_function E function_name function_args with
      | Raise e => LoopCrash e tr0
      | Ok function_response =>
          let send sd' tr' :=
            LoopOk sd' acc (tr' ++ [ToRemote (SendFunctionResponse (fc_id c)
                                      function_name function_response)]) in
          match (if String.eqb function_name "search_products"
                 then results_of function_response else None) with
          | None => send sd tr0
          | Some results =>
              let tr1 := tr0 ++ (if attached sd
                                 then [Emit (FunctionResult function_name
                                              (map (normalize_product E) results))]
                                 else []) in
              let sd1 := set_fr_sent true sd in
              if rc_sent sd1 then send sd1 tr1
              else if attached sd1 then
                send (set_rc_sent true sd1) (tr1 ++ [Emit (ResponseComplete fallback_text)])
              else
                (* [socketio.emit] with the local [socketio] of an earlier
                   message ([None]), or never assigned *)
                LoopCrash (if socketio_bound lv then attribute_error
                           else unbound_local "socketio") tr1
          end
      end
  end.

(** Step 3: the end-of-turn branch, which emits ['response_complete'] and
    breaks. *)
Definition end_of_turn_step (sd : session_data) (acc : string) : loop_result :=
  let final_text := py_strip acc in
  let '(final_text, sd1) :=
    if negb (str_truthy final_text) && fr_sent sd
    then (fallback_text, set_fr_sent false sd)
    else (final_text, sd) in
  LoopOk sd1 acc (if attached sd1 then [Emit (ResponseComplete final_text)] else []).

Fixpoint receive_loop (E : env) (lv : task_locals) (sd : session_data) (acc : string)
    (rs : list live_response) : loop_result :=
  match rs with
  | [] => LoopOk sd acc []
  | r :: rs' =>
      let '(acc1, tr1) := text_step sd acc r in
      prepend_effects tr1
        (match r_tool_call r with
         | Some calls => tool_step E lv sd acc1 calls
         | None =>
             if r_end_of_turn r then end_of_turn_step sd acc1
             else receive_loop E lv sd acc1 rs'
         end)
  end.

(** Outcome of one dequeued message: the loop went on to the next message
    with the updated session data, or an exception ended the background
    task (the outer [except Exception] sets [connected] to [False]). *)
Inductive turn_outcome :=
| TurnDone (sd : session_data) (tr : list effect)
| TurnCrash (e : exn) (tr : list effect).

Definition frame_error_text : string := "[Error: Could not process image frame]".

(** Sending the user input: [Some pre] when it was sent (with the effects),
    [None] when the frame could not be decoded. *)
Definition send_step (E : env) (message : string) (frame : option string)
    : option (list effect) :=
  match frame with
  | Some f =>
      if str_truthy f then
        match decode_frame E f with
        | Ok img => Some [ToRemote (SendInput message (Some img))]
        | Raise _ => None
        end
      else Some [ToRemote (SendInput message None)]
  | None => Some [ToRemote (SendInput message None)]
  end.

(** The body of [while True:] for one message [(message, frame)] whose
    replies from [session.receive()] are [rs], with the task's locals [lv]
    as the earlier messages left them. *)
Definition process_turn (E : env) (lv : task_locals) (sd : session_data) (message : string)
    (frame : option string) (rs : list live_response) : turn_outcome :=
  match send_step E message frame with
  | None =>
      (* emit the error text and [continue] *)
      TurnDone sd (if attached sd then [Emit (ResponseComplete frame_error_text)] else [])
  | Some pre =>
      match receive_loop E lv sd "" rs with
      | LoopCrash e tr => TurnCrash e (pre ++ tr)
      | LoopOk sd1 accumulated_text tr =>
          let '(sd2, tr2) :=
            if attached sd1 && negb (rc_sent sd1)
            then (set_rc_sent true sd1,
                  Emit (ResponseComplete accumulated_text)
                    :: map Emit (stream_tts_audio E accumulated_text))
            else (sd1, []) in
          (* Reset the safeguard for the next message; then
             [logger.info(f"... {response}")] reads [response], unbound when
             no message so far got a reply *)
          if response_bound lv || negb (Nat.eqb (length rs) 0)
          then TurnDone (set_rc_sent false sd2) (pre ++ tr ++ tr2)
          else TurnCrash (unbound_local "response") (pre ++ tr ++ tr2)
      end
  end.

(** The locals after a message that did not end the task: [socketio] is
    assigned on both ways out ([continue] after a bad frame, and the
    emission after the loop), [response] once a reply was received. *)
Definition turn_locals (E : env) (lv : task_locals) (message : string)
    (frame : option string) (rs : list live_response) : task_locals :=
  match send_step E message frame with
  | None => TaskLocals (response_bound lv) true
  | Some _ => TaskLocals (response_bound lv || negb (Nat.eqb (length rs) 0)) true
  end.

Definition turn_effects (o : turn_outcome) : list effect :=
  match o with TurnDone _ tr => tr | TurnCrash _ tr => tr end.

(** Texts of the ['response_complete'] emissions, in order. *)
Definition complete_of (x : effect) : list string :=
  match x with Emit (ResponseComplete t) => [t] | _ => [] end.
Definition complete_texts (tr : list effect) : list string := flat_map complete_of tr.

(** The calls handed to the tool executor, in order. *)
Definition tool_call_of (x : effect) : list (string * list (string * string)) :=
  match x with CallTool n a => [(n, a)] | _ => [] end.
Definition tool_calls (tr : list effect) := flat_map tool_call_of tr.

(** The function responses sent back to the remote service, with their ids. *)
Definition answer_of (x : effect) : list (string * tool_response) :=
  match x with ToRemote (SendFunctionResponse id _ c) => [(id, c)] | _ => [] end.
Definition answers (tr : list effect) := flat_map answer_of tr.

(** Everything but the audio emissions. *)
Definition is_audio (x : effect) : bool :=
  match x with
  | Emit (AudioChunk _) | Emit AudioStreamEnd => true
  | _ => false
  end.

Definition text_part (o : turn_outcome) : turn_outcome :=
  match o with
  | TurnDone sd tr => TurnDone sd (List.filter (fun x => negb (is_audio x)) tr)
  | TurnCrash e tr => TurnCrash e (List.filter (fun x => negb (is_audio x)) tr)
  end.

(* ------------------------------------------------------------------ *)
(** ** [GeminiLiveService]: session registry and response store *)

(** [self.session_responses[session_id]]: the dict
    [{"text": ..., "done": ..., "audio": None}], with ["retrieved": True]
    after [clear_response]. *)
Record response_rec := ResponseRec {
  rr_text : string; rr_done : bool; rr_retrieved : bool
}.

Definition fresh_response : response_rec := ResponseRec "" false false.

(** [self.active_sessions] and [self.session_responses]. *)
Record live_state := LiveState {
  active_sessions : gmap string session_data;
  session_responses : gmap string response_rec
}.

(** The entry stored by [create_session] (the [task] key is set right after
    [self.loop.create_task(...)]). *)
Definition new_session_data : session_data :=
  {| connected := false; task_running := true; attached := false;
     rc_sent := false; fr_sent := false |}.

(** [create_session(session_id=None)]; [fresh] stands for [str(uuid.uuid4())].
    The background task is only scheduled: the handshake runs later in
    [connect_outcome]. *)
Definition create_session (st : live_state) (session_id : option string)
    (fresh : string) : string * live_state :=
  let sid := match session_id with Some s => s | None => fresh end in
  (sid, {| active_sessions := <[sid := new_session_data]> (active_sessions st);
           session_responses := <[sid := fresh_response]> (session_responses st) |}).

Definition set_connected (b : bool) (sd : session_data) : session_data :=
  {| connected := b; task_running := task_running sd; attached := attached sd;
     rc_sent := rc_sent sd; fr_sent := fr_sent sd |}.

(** The start of [_session_background_task]: [client.aio.live.connect]
    succeeds ([session_data["connected"] = True]) or raises (the
    [except Exception] sets [session_data["connected"] = False] and
    returns). *)
Definition connect_outcome (handshake_ok : bool) (sid : string) (st : live_state)
    : live_state :=
  {| active_sessions := alter (set_connected handshake_ok) sid (active_sessions st);
     session_responses := session_responses st |}.

(** [end_session]: returns [None] (Python) in every path. Waiting for the
    background task only touches the entry that is deleted right after. *)
Definition end_session (st : live_state) (sid : string) : unit * live_state :=
  match active_sessions st !! sid with
  | None => (tt, st)
  | Some _ =>
      (tt, {| active_sessions := delete sid (active_sessions st);
              session_responses := delete sid (session_responses st) |})
  end.

Definition get_current_response (st : live_state) (sid : string) : option response_rec :=
  session_responses st !! sid.

Definition clear_response (st : live_state) (sid : string) : live_state :=
  match session_responses st !! sid with
  | Some r =>
      if rr_done r
      then {| active_sessions := active_sessions st;
              session_responses := <[sid := ResponseRec "" false true]> (session_responses st) |}
      else st
  | None => st
  end.

(** Body of an HTTP reply of [get_live_response]. *)
Inductive live_body :=
| BodyResponse (r : response_rec)
| BodyProcessing.

(** [app.get_live_response]: [if response_content:] is true for every
    stored response dict (it always has its three keys). *)
Definition get_live_response (st : live_state) (sid : string)
    : Z * live_body * live_state :=
  match get_current_response st sid with
  | Some r => (200%Z, BodyResponse r, clear_response st sid)
  | None => (202%Z, BodyProcessing, st)
  end.

(* ------------------------------------------------------------------ *)
(** ** [GeminiLive2Service]: sessions and audio intake *)

Record l2_session := L2Session {
  audio : list (list byte);
  active : bool;
  socket_set : bool
}.

(** [self.sessions], whether [self.loop] is set, and the puts on the
    sessions' [out_queue] scheduled with [run_coroutine_threadsafe]. *)
Record l2_state := L2State {
  sessions : gmap string l2_session;
  loop_set : bool;
  scheduled : list (string * list byte)
}.

Definition l2_create_session (st : l2_state) (fresh : string) : string * l2_state :=
  (fresh, {| sessions := <[fresh := L2Session [] true false]> (sessions st);
             loop_set := loop_set st; scheduled := scheduled st |}).

Inductive l2_reply :=
| ReplyError (msg : string)
| ReplyStatus (msg : string).

Definition handle_audio_chunk (st : l2_state) (sid : string) (pcm_bytes : list byte)
    : l2_reply * l2_state :=
  match sessions st !! sid with
  | Some s =>
      if active s then
        let sched := if loop_set st then scheduled st ++ [(sid, pcm_bytes)]
                     else scheduled st in
        (ReplyStatus "audio chunk received",
         {| sessions := <[sid := L2Session (audio s ++ [pcm_bytes]) (active s) (socket_set s)]>
                          (sessions st);
            loop_set := loop_set st; scheduled := sched |})
      else (ReplyError "Invalid session", st)
  | None => (ReplyError "Invalid session", st)
  end.

Definition l2_end_session (st : l2_state) (sid : string) : bool * l2_state :=
  match sessions st !! sid with
  | Some s =>
      (true, {| sessions := <[sid := L2Session (audio s) false (socket_set s)]> (sessions st);
                loop_set := loop_set st; scheduled := scheduled st |})
  | None => (false, st)
  end.

(* ------------------------------------------------------------------ *)
(** ** Concrete environments *)

Definition sample_item (n : string) : item :=
  Item n (String.append "Product " n) "$19.99" "" "A1".

(** A search endpoint answering [neighbor_count] (10) products, as
    [/api/search] does by default for a GET request. *)
Definition ten_items : list item :=
  map sample_item ["1"; "2"; "3"; "4"; "5"; "6"; "7"; "8"; "9"; "10"].

Definition sample_env : env :=
  {| search_http := fun _ => HttpResp 200 (Ok (SearchData (Some ten_items))) "";
     tts_client := None;
     normalize_product := fun p => p;
     decode_frame := fun _ => Raise (Exn "binascii.Error" "Incorrect padding") |}.

Definition attached_sd : session_data :=
  {| connected := true; task_running := true; attached := true;
     rc_sent := false; fr_sent := false |}.

Example turn_text_only :
  complete_texts (turn_effects (process_turn sample_env initial_locals attached_sd "hello" None
    [LiveResponse (Some "Hi") None false])) = ["Hi"].
Proof. reflexivity. Qed.

(** The search results handed to the model by the sibling path
    [send_user_input_to_session]: [data['results'][:5]], each product
    re-projected on its five fields (an [item] has exactly these). *)
Definition results_for_model (data : search_data) : list item :=
  match sd_results data with
  | Some rs => firstn 5 rs
  | None => []
  end.

(* ------------------------------------------------------------------ *)
(** ** Further projections of turn effects *)

(** Texts of the ['response_chunk'] emissions, in order. *)
Definition chunk_of (x : effect) : list string :=
  match x with Emit (ResponseChunk t) => [t] | _ => [] end.
Definition chunk_texts (tr : list effect) : list string := flat_map chunk_of tr.

(** The non-empty [response.text] of a reply (what the loop accumulates). *)
Definition reply_text (r : live_response) : list string :=
  match r_text r with
  | Some t => if str_truthy t then [t] else []
  | None => []
  end.
Definition reply_texts (rs : list live_response) : list string := flat_map reply_text rs.

(** Successive iterations of the [while True:] loop of
    [_session_background_task] over the queued messages, each with the
    replies [session.receive()] yields for it: the session flags and the
    task's locals carry over from one message to the next, and an exception
    ends the task. *)
Fixpoint run_turns (E : env) (lv : task_locals) (sd : session_data)
    (msgs : list (string * option string * list live_response)) : turn_outcome :=
  match msgs with
  | [] => TurnDone sd []
  | (message, frame, rs) :: msgs' =>
      match process_turn E lv sd message frame rs with
      | TurnCrash e tr => TurnCrash e tr
      | TurnDone sd1 tr =>
          match run_turns E (turn_locals E lv message frame rs) sd1 msgs' with
          | TurnDone sd2 tr2 => TurnDone sd2 (tr ++ tr2)
          | TurnCrash e tr2 => TurnCrash e (tr ++ tr2)
          end
      end
  end.

(* ------------------------------------------------------------------ *)
(** ** [process_user_message] and [process_user_message_socketio] *)

Definition set_attached (sd : session_data) : session_data :=
  {| connected := connected sd; task_running := task_running sd; attached := true;
     rc_sent := rc_sent sd; fr_sent := fr_sent sd |}.

(** Reply of [process_user_message]: [{"error": ...}], or
    [{"status": "processing"}] after [message] was put on the queue. *)
Inductive pum_result :=
| PumError (msg : string)
| PumEnqueued (message : string).

(** The HTTP path: any registered session accepts the message. *)
Definition process_user_message (st : live_state) (sid : string) (message : string)
    : pum_result :=
  match active_sessions st !! sid with
  | None => PumError "Session not found"
  | Some _ => PumEnqueued message
  end.

(** Outcome of [process_user_message_socketio]: an ['error'] emission to
    the client, or [(message, frame)] put on the session's queue. *)
Inductive sio_result :=
| SioError (msg : string)
| SioEnqueued (message : string) (frame : option string).

(** The Socket.IO path: the session must be connected and have its task
    ([session_data.get("task") is None] reads as [task_running = false]);
    on success [client_sid] and [socketio] are stored in the entry. *)
Definition process_user_message_socketio (st : live_state) (sid : string)
    (message : string) (frame : option string) : sio_result * live_state :=
  match active_sessions st !! sid with
  | None => (SioError "Session not found", st)
  | Some sd =>
      if negb (connected sd) || negb (task_running sd)
      then (SioError "Session not connected", st)
      else (SioEnqueued message frame,
            {| active_sessions := <[sid := set_attached sd]> (active_sessions st);
               session_responses := session_responses st |})
  end.

(** [app.end_live_session] ([POST /api/live/end]) with the body's
    ['session_id']: [end_session] returns [None], which [if success:] reads
    as false. *)
Definition end_live_session_http (st : live_state) (session_id : option string)
    : Z * string * live_state :=
  match session_id with
  | None => (400%Z, "No session_id provided", st)
  | Some sid =>
      if negb (str_truthy sid) then (400%Z, "No session_id provided", st)
      else
        let '(success, st') := end_session st sid in
        let success_truthy := match success with tt => false end in
        if success_truthy then (200%Z, "Session ended", st')
        else (404%Z, "Failed to end session", st')
  end.

(** The status codes of [n] successive polls of [GET /api/live/response/<sid>]. *)
Fixpoint poll_codes (n : nat) (st : live_state) (sid : string) : list Z :=
  match n with
  | O => []
  | S n' =>
      let '(code, _, st') := get_live_response st sid in
      code :: poll_codes n' st' sid
  end.

(* ------------------------------------------------------------------ *)
(** ** [GeminiLive2Service.get_status] and repeated audio intake *)

(** [get_status]: the ids of the active sessions and the number of
    sessions (ids listed in the map's order rather than insertion order). *)
Definition l2_get_status (st : l2_state) : list string * nat :=
  (map fst (List.filter (fun kv => active (snd kv)) (map_to_list (sessions st))),
   size (sessions st)).

(** [handle_audio_chunk] called on each chunk in turn. *)
Fixpoint handle_audio_chunks (st : l2_state) (sid : string) (chunks : list (list byte))
    : list l2_reply * l2_state :=
  match chunks with
  | [] => ([], st)
  | c :: cs =>
      let '(r, st1) := handle_audio_chunk st sid c in
      let '(rs, st2) := handle_audio_chunks st1 sid cs in
      (r :: rs, st2)
  end.

(* ------------------------------------------------------------------ *)
(** ** [utils.normalize_product] *)

Module Utils.

(** [product.get(k, default)] on a dict of string values. *)
Definition dget (k : string) (p : gmap string string) (dflt : string) : string :=
  match p !! k with Some v => v | None => dflt end.

(** [rand_price] is the default [f"${random.randint(999, 9999)/100:.2f}"],
    evaluated on every call. *)
Definition normalize_product (rand_price : string) (query : option string)
    (p : gmap string string) : gmap string string :=
  let id := match p !! "id" with
            | Some v => if str_truthy v then v else dget "productid" p ""
            | None => dget "productid" p ""
            end in
  let q := match query with
           | Some s => if str_truthy s then s else "image"
           | None => "image"
           end in
  <["id" := id]> (<["image_url" := dget "image_url" p ""]>
  (<["name" := dget "name" p (String.append "Product " (dget "id" p (dget "productid" p "")))]>
  (<["description" := dget "description" p
       (String.append "This product matches your " (String.append q " search"))]>
  (<["price" := dget "price" p rand_price]>
  (<["aisle" := dget "aisle" p "Unknown"]> ∅))))).

End Utils.

(* ------------------------------------------------------------------ *)
(** ** One message of the Live2 receive loop ([GeminiLive2Service.process_streaming]) *)







(* ------------------------------------------------------------------ *)
(** ** [GeminiMultimodalService._process_function_call] *)

Module Multimodal.

(** The returned dict: ["results"] or ["error"] (with its ["function_name"]). *)
Inductive fc_result :=
| FCResults (results : list item)
| FCError (function_name : string) (error : string).

(** [requests_get query] is [requests.get(...).json()] (a [Raise] when the
    request or the JSON decoding raises); the arguments are a mapping
    ([hasattr(args, 'get')]). *)
Definition process_function_call (requests_get : string -> py search_data)
    (name : string) (args : list (string * string)) : fc_result :=
  if String.eqb name "search_products" then
    let query := match dict_get "query" args with Some q => q | None => "" end in
    match requests_get query with
    | Raise e => FCError "search_products" (str_exn e)
    | Ok data =>
        match sd_results data with
        | Some rs => FCResults (firstn 5 rs)
        | None => FCResults []
        end
    end
  else FCError name "Unsupported function".

End Multimodal.

(* ------------------------------------------------------------------ *)
(** ** [VertexAIService.search_feature_store] *)

Module Vertex.

(** A neighbor, through [str(features[8].value)] and
    [str(features[9].value)]; [extract_id] is the regex cascade over the
    first of them ([None] when no pattern matches). *)
Definition search_feature_store (extract_id : string -> option string)
    (neighbor_count : nat) (neighbors : list (string * string))
    : list (string * string) :=
  flat_map (fun i =>
              match nth_error neighbors i with
              | Some (f8, f9) =>
                  match extract_id f8 with
                  | Some product_id => [(product_id, f9)]
                  | None => []          (* continue *)
                  end
              | None => []
              end)
           (py_range 0 (Nat.min neighbor_count (length neighbors)) 1).

End Vertex.

(* ================================================================== *)
(** * Proofs *)

(* ------------------------------------------------------------------ *)
(** ** Chunking in [stream_tts_audio] *)

Section Chunking.
Context {A : Type}.

Lemma py_range_go_concat (l : list A) (step fuel i : nat) :
  0 < step -> length l - i <= fuel ->
  concat (map (fun j => py_slice l j (j + step)) (py_range_go fuel i (length l) step))
  = skipn i l.
Proof.
  intros Hstep. revert i.
  induction fuel as [|fuel IH]; intros i Hfuel; simpl.
  - symmetry. apply skipn_all2. lia.
  - destruct (Nat.ltb_spec i (length l)) as [Hlt|Hge]; simpl.
    + rewrite IH by lia. unfold py_slice.
      replace (i + step - i) with step by lia.
      rewrite Nat.add_comm, <- skipn_skipn. apply firstn_skipn.
    + symmetry. apply skipn_all2. lia.
Qed.

Lemma py_range_go_slices_bounded (l : list A) (step fuel i : nat) :
  Forall (fun c => length c <= step)
    (map (fun j => py_slice l j (j + step)) (py_range_go fuel i (length l) step)).
Proof.
  revert i. induction fuel as [|fuel IH]; intros i; simpl; [constructor|].
  destruct (i <? length l); simpl; [|constructor].
  constructor; [|apply IH].
  unfold py_slice. replace (i + step - i) with step by lia.
  apply firstn_le_length.
Qed.
End Chunking.

Lemma ceil_chunk_step (n : nat) :
  chunk_size < n -> S ((n - chunk_size + 4095) / 4096) = (n + 4095) / 4096.
Proof.
  unfold chunk_size. intros H.
  replace (n + 4095) with ((n - 4096 + 4095) + 1 * 4096) by lia.
  rewrite Nat.div_add by lia. lia.
Qed.

Lemma py_range_go_length (len fuel i : nat) :
  len - i <= fuel ->
  length (py_range_go fuel i len chunk_size) = (len - i + 4095) / 4096.
Proof.
  revert i. induction fuel as [|fuel IH]; intros i Hfuel; cbn [py_range_go].
  - replace (len - i) with 0 by lia. reflexivity.
  - destruct (Nat.ltb_spec i len) as [Hlt|Hge]; cbn [length].
    + rewrite IH by (unfold chunk_size; lia).
      destruct (Nat.ltb_spec chunk_size (len - i)) as [Hbig|Hsmall].
      * rewrite <- (ceil_chunk_step (len - i)) by exact Hbig. f_equal. f_equal. lia.
      * unfold chunk_size in *.
        replace (len - (i + 4096) + 4095) with 4095 by lia.
        rewrite Nat.div_small by lia.
        apply (Nat.div_unique _ _ _ (len - i - 1)); lia.
    + replace (len - i) with 0 by lia. reflexivity.
Qed.

Lemma tts_chunks_concat (b : list byte) : concat (tts_chunks b) = b.
Proof.
  unfold tts_chunks, py_range. rewrite py_range_go_concat; [reflexivity|unfold chunk_size; lia|lia].
Qed.

Lemma tts_chunks_length (b : list byte) :
  length (tts_chunks b) = (length b + 4095) / 4096.
Proof.
  unfold tts_chunks, py_range. rewrite length_map, py_range_go_length by lia.
  rewrite Nat.sub_0_r. reflexivity.
Qed.

Lemma tts_chunks_bounded (b : list byte) :
  Forall (fun c => length c <= 4096) (tts_chunks b).
Proof. apply py_range_go_slices_bounded. Qed.

Lemma stream_tts_audio_only_audio (E : env) (text : string) :
  Forall (fun ev => is_audio (Emit ev) = true) (stream_tts_audio E text).
Proof.
  unfold stream_tts_audio.
  destruct (tts_client E) as [synth|]; [|constructor].
  destruct (negb (str_truthy text)); [constructor|].
  destruct (synth text); [|constructor].
  apply Forall_app; split; [|repeat constructor].
  induction (tts_chunks a); simpl; constructor; auto.
Qed.

(* ------------------------------------------------------------------ *)
(** ** The turn loop *)

(** A reply that carries neither a tool call nor an end-of-turn marker. *)
Definition plain (r : live_response) : Prop :=
  r_tool_call r = None /\ r_end_of_turn r = false.

(** Effects that are neither completions, tool calls nor tool answers. *)
Definition quiet (tr : list effect) : Prop :=
  complete_texts tr = [] /\ tool_calls tr = [] /\ answers tr = [].

Ltac proj_simpl :=
  unfold quiet, complete_texts, tool_calls, answers in *;
  rewrite ?flat_map_app; simpl.

Lemma quiet_app (a b : list effect) : quiet a -> quiet b -> quiet (a ++ b).
Proof.
  intros (H1 & H2 & H3) (H4 & H5 & H6). proj_simpl.
  rewrite H1, H2, H3, H4, H5, H6. repeat split.
Qed.

Lemma quiet_audio (evs : list event) :
  Forall (fun ev => is_audio (Emit ev) = true) evs -> quiet (map Emit evs).
Proof.
  induction 1 as [|ev evs Hev _ IH]; [repeat split|].
  destruct IH as (H1 & H2 & H3).
  destruct ev; try discriminate Hev; proj_simpl; repeat split; assumption.
Qed.

Lemma text_step_quiet (sd : session_data) (acc : string) (r : live_response) :
  quiet (snd (text_step sd acc r)).
Proof.
  unfold text_step.
  destruct (r_text r) as [t|]; [destruct (str_truthy t), (attached sd)|];
    repeat split.
Qed.

Lemma send_step_quiet (E : env) (m : string) (f : option string) (sent : list effect) :
  send_step E m f = Some sent -> quiet sent.
Proof.
  unfold send_step. intros H.
  destruct f as [f|]; [destruct (str_truthy f); [destruct (decode_frame E f)|]|];
    inversion H; subst; repeat split.
Qed.

Lemma prepend_effects_app (a b : list effect) (r : loop_result) :
  prepend_effects a (prepend_effects b r) = prepend_effects (a ++ b) r.
Proof. destruct r; simpl; rewrite app_assoc; reflexivity. Qed.

Lemma length_app_cons_neq0 {A} (pre post : list A) (r : A) :
  Nat.eqb (length (pre ++ r :: post)) 0 = false.
Proof. rewrite length_app. cbn [length]. apply Nat.eqb_neq. lia. Qed.

(** A prefix of plain replies only streams text chunks. *)
Lemma receive_loop_plain_app (E : env) (lv : task_locals) (sd : session_data) (acc : string)
    (pre rs : list live_response) :
  Forall plain pre ->
  exists acc' chunks,
    receive_loop E lv sd acc (pre ++ rs) = prepend_effects chunks (receive_loop E lv sd acc' rs)
    /\ quiet chunks.
Proof.
  intros Hpre. revert acc.
  induction Hpre as [|r pre [Htool Heot] _ IH]; intros acc.
  - exists acc, []. split; [simpl; destruct (receive_loop E lv sd acc rs); reflexivity|repeat split].
  - simpl. pose proof (text_step_quiet sd acc r) as Hq.
    destruct (text_step sd acc r) as [acc1 tr1].
    rewrite Htool, Heot.
    destruct (IH acc1) as (acc' & chunks & Heq & Hq').
    exists acc', (tr1 ++ chunks). rewrite Heq, prepend_effects_app.
    split; [reflexivity|]. apply quiet_app; assumption.
Qed.

Lemma receive_loop_set_tts (E : env) (lv : task_locals) t (sd : session_data) (acc : string)
    (rs : list live_response) :
  receive_loop (set_tts E t) lv sd acc rs = receive_loop E lv sd acc rs.
Proof.
  revert acc. induction rs as [|r rs IH]; intros acc; simpl; [reflexivity|].
  destruct (text_step sd acc r) as [acc1 tr1]. f_equal.
  destruct (r_tool_call r); [reflexivity|].
  destruct (r_end_of_turn r); [reflexivity|apply IH].
Qed.

Lemma filter_stream_tts_audio (E : env) (text : string) :
  List.filter (fun x => negb (is_audio x)) (map Emit (stream_tts_audio E text)) = [].
Proof.
  induction (stream_tts_audio_only_audio E text) as [|ev evs Hev _ IH]; [reflexivity|].
  cbn [map List.filter]. rewrite Hev. exact IH.
Qed.

Lemma process_turn_text_part_set_tts (E : env) (lv : task_locals) t (sd : session_data) (message : string)
    (frame : option string) (rs : list live_response) :
  text_part (process_turn (set_tts E t) lv sd message frame rs)
  = text_part (process_turn E lv sd message frame rs).
Proof.
  unfold process_turn.
  change (send_step (set_tts E t) message frame) with (send_step E message frame).
  rewrite receive_loop_set_tts.
  destruct (send_step E message frame) as [sent|]; [|reflexivity].
  destruct (receive_loop E lv sd "" rs) as [sd1 acc tr|e tr]; [|reflexivity].
  destruct (attached sd1 && negb (rc_sent sd1));
    destruct (response_bound lv || negb (Nat.eqb (length rs) 0)); simpl; try reflexivity;
    rewrite !List.filter_app; cbn [List.filter is_audio negb];
    rewrite !filter_stream_tts_audio; reflexivity.
Qed.

(* ------------------------------------------------------------------ *)
(** ** Claims *)

(** C7: a successful synthesis of [B] is streamed as ceil(|B|/4096)
    ['receive_audio_chunk'] emissions of at most 4096 bytes each whose
    concatenation is [B], then one ['audio_stream_end']; a synthesis that
    raises is swallowed (nothing emitted), and the rest of the turn (every
    non-audio effect and the session data) does not depend on the TTS
    client at all. *)
Theorem stream_tts_audio_spec (E : env) synthesize_speech (text : string) :
  tts_client E = Some synthesize_speech -> str_truthy text = true ->
  (forall B, synthesize_speech text = Ok B ->
     exists chunks,
       stream_tts_audio E text = map AudioChunk chunks ++ [AudioStreamEnd]
       /\ length chunks = (length B + 4095) / 4096
       /\ Forall (fun c => length c <= 4096) chunks
       /\ concat chunks = B)
  /\ (forall e, synthesize_speech text = Raise e -> stream_tts_audio E text = [])
  /\ (forall t lv sd message frame rs,
        text_part (process_turn (set_tts E t) lv sd message frame rs)
        = text_part (process_turn E lv sd message frame rs)).
Proof.
  intros Htts Htext. split; [|split].
  - intros B HB. exists (tts_chunks B).
    unfold stream_tts_audio. rewrite Htts, Htext, HB. cbn [negb].
    split; [reflexivity|].
    split; [apply tts_chunks_length|].
    split; [apply tts_chunks_bounded|apply tts_chunks_concat].
  - intros e He. unfold stream_tts_audio. rewrite Htts, Htext, He. reflexivity.
  - intros. apply process_turn_text_part_set_tts.
Qed.

Definition hello_tts : string -> py (list byte) :=
  fun _ => Ok (repeat x00 5000).

Lemma stream_tts_audio_spec_witness :
  tts_client (set_tts sample_env (Some hello_tts)) = Some hello_tts
  /\ str_truthy "hello" = true
  /\ exists chunks,
       stream_tts_audio (set_tts sample_env (Some hello_tts)) "hello"
       = map AudioChunk chunks ++ [AudioStreamEnd]
       /\ length chunks = 2.
Proof.
  split; [reflexivity|split; [reflexivity|]].
  destruct (stream_tts_audio_spec (set_tts sample_env (Some hello_tts)) hello_tts "hello"
              eq_refl eq_refl) as [Hok _].
  destruct (Hok (repeat x00 5000) eq_refl) as (chunks & Hs & Hlen & _).
  exists chunks. split; [exact Hs|]. rewrite Hlen, repeat_length. reflexivity.
Defined.


(** A tool call for [search_products] with the query ["jacket"] and a
    second call in the same frame. *)
Definition two_calls : list fcall :=
  [FCall "call-1" "search_products" [("query", "jacket")];
   FCall "call-2" "search_products" [("query", "coat")]].

(** C5 (as stated, refuted): text had accumulated before the tool call
    ("Sure, "), yet the only ['response_complete'] carries the fallback. *)
Lemma tool_turn_complete_ignores_text :
  complete_texts (turn_effects (process_turn sample_env initial_locals attached_sd "find me a jacket" None
    [LiveResponse (Some "Sure, ") None false;
     LiveResponse None (Some two_calls) false])) = [fallback_text]
  /\ fallback_text <> "Sure, ".
Proof. split; [reflexivity|discriminate]. Qed.

(** C5 (amended): in a turn where the first call of a tool-call frame is
    [search_products] and its result has a ["results"] key, the turn emits
    exactly one ['response_complete'], and it carries "Here you go!", whatever
    text accumulated before the tool call. *)
Theorem search_turn_complete_is_fallback (E : env) (lv : task_locals) (sd : session_data)
    (message : string) (frame : option string) (sent : list effect)
    (pre post : list live_response) (r : live_response) (c : fcall) (cs : list fcall)
    (fr : tool_response) (res : list item) :
  attached sd = true -> rc_sent sd = false ->
  send_step E message frame = Some sent ->
  Forall plain pre ->
  r_tool_call r = Some (c :: cs) ->
  fc_name c = "search_products" ->
  execute_function E (fc_name c) (fc_args c) = Ok fr ->
  results_of fr = Some res ->
  complete_texts (turn_effects (process_turn E lv sd message frame (pre ++ r :: post)))
  = [fallback_text].
Proof.
  intros Hatt Hrc Hsend Hpre Hr Hname Hexec Hres.
  unfold process_turn. rewrite Hsend.
  destruct (receive_loop_plain_app E lv sd "" pre (r :: post) Hpre)
    as (acc' & chunks & Hloop & Hq). rewrite Hloop.
  cbn [receive_loop].
  pose proof (text_step_quiet sd acc' r) as Hq1.
  destruct (text_step sd acc' r) as [acc1 tr1]. rewrite Hr.
  unfold tool_step. rewrite Hexec, Hname. cbn [String.eqb]. rewrite Hres.
  cbn [rc_sent set_fr_sent attached]. rewrite Hrc, Hatt.
  cbn [prepend_effects rc_sent set_rc_sent attached andb negb].
  rewrite length_app_cons_neq0, orb_true_r.
  destruct (send_step_quiet E message frame sent Hsend) as (Hs & _).
  destruct Hq as (Hc & _). destruct Hq1 as (Hc1 & _). simpl in Hc1.
  simpl. rewrite Hatt. simpl. proj_simpl. rewrite Hs, Hc, Hc1. reflexivity.
Qed.

Lemma search_turn_complete_is_fallback_witness :
  complete_texts (turn_effects (process_turn sample_env initial_locals attached_sd "find me a jacket" None
    ([LiveResponse (Some "Sure, ") None false] ++
     LiveResponse None (Some two_calls) false :: []))) = [fallback_text].
Proof.
  apply (search_turn_complete_is_fallback sample_env initial_locals attached_sd "find me a jacket" None
           [ToRemote (SendInput "find me a jacket" None)]
           [LiveResponse (Some "Sure, ") None false] []
           (LiveResponse None (Some two_calls) false)
           (FCall "call-1" "search_products" [("query", "jacket")])
           [FCall "call-2" "search_products" [("query", "coat")]]
           (TRData (SearchData (Some ten_items))) ten_items);
    try reflexivity.
  repeat constructor.
Defined.

Lemma stream_no_tool_calls (E : env) (x : string) :
  flat_map tool_call_of (map Emit (stream_tts_audio E x)) = [].
Proof. apply (quiet_audio _ (stream_tts_audio_only_audio E x)). Qed.

Lemma stream_no_answers (E : env) (x : string) :
  flat_map answer_of (map Emit (stream_tts_audio E x)) = [].
Proof. apply (quiet_audio _ (stream_tts_audio_only_audio E x)). Qed.

Definition loop_effects (r : loop_result) : list effect :=
  match r with LoopOk _ _ tr => tr | LoopCrash _ tr => tr end.

Lemma tool_step_first_call (E : env) (lv : task_locals) (sd : session_data) (acc : string)
    (c : fcall) (cs : list fcall) :
  let tr := loop_effects (tool_step E lv sd acc (c :: cs)) in
  tool_calls tr = [(fc_name c, fc_args c)]
  /\ Forall (fun a => fst a = fc_id c) (answers tr)
  /\ length (answers tr) <= 1.
Proof.
  unfold tool_step.
  repeat case_match; simplify_eq; cbn [loop_effects]; proj_simpl;
    (split; [reflexivity|split; [repeat constructor|simpl; lia]]).
Qed.

(** In the Live service's background task, a tool-call frame with calls
    [c :: cs] hands only [c] to the tool executor, and every function
    response sent back in the turn answers [c] (at most one is sent); the
    calls in [cs] are neither executed nor answered. *)
Theorem tool_frame_first_call_only (E : env) (lv : task_locals) (sd : session_data)
    (message : string) (frame : option string) (sent : list effect)
    (pre post : list live_response) (r : live_response) (c : fcall) (cs : list fcall) :
  send_step E message frame = Some sent ->
  Forall plain pre ->
  r_tool_call r = Some (c :: cs) ->
  let tr := turn_effects (process_turn E lv sd message frame (pre ++ r :: post)) in
  tool_calls tr = [(fc_name c, fc_args c)]
  /\ Forall (fun a => fst a = fc_id c) (answers tr)
  /\ length (answers tr) <= 1.
Proof.
  intros Hsend Hpre Hr tr. subst tr.
  unfold process_turn. rewrite Hsend.
  destruct (receive_loop_plain_app E lv sd "" pre (r :: post) Hpre)
    as (acc' & chunks & Hloop & Hq). rewrite Hloop, length_app_cons_neq0, orb_true_r.
  cbn [receive_loop].
  pose proof (text_step_quiet sd acc' r) as Hq1.
  destruct (text_step sd acc' r) as [acc1 tr1]. rewrite Hr. simpl in Hq1.
  pose proof (send_step_quiet E message frame sent Hsend) as Hq0.
  pose proof (quiet_audio _ (stream_tts_audio_only_audio E acc1)) as Hqa.
  destruct Hq0 as (_ & Ht0 & Ha0), Hq as (_ & Ht & Ha), Hq1 as (_ & Ht1 & Ha1),
    Hqa as (_ & Hta & Haa).
  pose proof (tool_step_first_call E lv sd acc1 c cs) as Hstep.
  destruct (tool_step E lv sd acc1 (c :: cs)) as [sd1 acc2 tr2|e tr2];
    cbn [loop_effects prepend_effects] in *; destruct Hstep as (Ht2 & Hf2 & Hl2);
    [destruct (attached sd1 && negb (rc_sent sd1))|];
    cbn [turn_effects] in *; proj_simpl;
    rewrite ?Ht0, ?Ha0, ?Ht, ?Ha, ?Ht1, ?Ha1, ?stream_no_tool_calls, ?stream_no_answers, ?Ht2; simpl;
    rewrite ?app_nil_r; (split; [reflexivity|split; assumption]).
Qed.

Lemma tool_frame_first_call_only_witness :
  tool_calls (turn_effects (process_turn sample_env initial_locals attached_sd "find me a jacket" None
    ([] ++ LiveResponse None (Some two_calls) false :: [])))
  = [("search_products", [("query", "jacket")])].
Proof.
  destruct (tool_frame_first_call_only sample_env initial_locals attached_sd "find me a jacket" None
              [ToRemote (SendInput "find me a jacket" None)] [] []
              (LiveResponse None (Some two_calls) false)
              (FCall "call-1" "search_products" [("query", "jacket")])
              [FCall "call-2" "search_products" [("query", "coat")]]
              eq_refl (List.Forall_nil _) eq_refl) as [H _].
  exact H.
Defined.



(** C4 (code defect): on the background-task path the search endpoint's
    body is returned by [_execute_function] unchanged and sent back as the
    tool's result, so all ten products of a default search reach the remote
    service; the sibling path [send_user_input_to_session] keeps five. *)
Theorem search_results_forwarded_untruncated :
  answers (turn_effects (process_turn sample_env initial_locals attached_sd "find me a jacket" None
    [LiveResponse None (Some two_calls) false]))
  = [("call-1", TRData (SearchData (Some ten_items)))]
  /\ length ten_items = 10
  /\ length (results_for_model (SearchData (Some ten_items))) = 5.
Proof. split; [reflexivity|split; reflexivity]. Qed.

(** Whether the search request failed: it raised, answered a status other
    than 200, or its JSON body could not be read. *)
Definition search_failed (o : http_outcome) : bool :=
  match o with
  | HttpRaise _ => true
  | HttpResp status json _ =>
      negb (Z.eqb status 200) || match json with Raise _ => true | Ok _ => false end
  end.

(** C8: [_execute_function] always returns a value (never raises); for a
    name other than [search_products] it is the ["error"] dict
    "Unknown function: <name>"; and a failing search request is turned
    into an ["error"] dict too. *)
Theorem execute_function_never_raises (E : env) (function_name : string)
    (function_args : list (string * string)) :
  (exists r, execute_function E function_name function_args = Ok r)
  /\ (function_name <> "search_products" ->
      execute_function E function_name function_args
      = Ok (TRError (String.append "Unknown function: " function_name)))
  /\ (function_name = "search_products" ->
      forall query, dict_get "query" function_args = Some query ->
      str_truthy query = true -> search_failed (search_http E query) = true ->
      exists msg, execute_function E function_name function_args = Ok (TRError msg)).
Proof.
  split; [|split].
  - unfold execute_function. repeat case_match; eauto.
  - intros Hne. unfold execute_function.
    apply String.eqb_neq in Hne. rewrite Hne. reflexivity.
  - intros -> query Hq Ht Hf. unfold execute_function. cbn [String.eqb].
    rewrite Hq, Ht. cbn [negb].
    destruct (search_http E query) as [e|status json text]; [eauto|].
    simpl in Hf. destruct (Z.eqb status 200); simpl in Hf; [|eauto].
    destruct json; [discriminate|eauto].
Qed.

Lemma execute_function_never_raises_witness :
  execute_function sample_env "lookup_price" [("query", "jacket")]
  = Ok (TRError "Unknown function: lookup_price").
Proof.
  destruct (execute_function_never_raises sample_env "lookup_price" [("query", "jacket")])
    as (_ & Hunknown & _).
  apply Hunknown. discriminate.
Defined.

(** The store after [create_session(session_id="s1")] on a fresh service:
    the response of "s1" is the initial, not yet done one. *)
Definition one_session_state : live_state :=
  snd (create_session (LiveState ∅ ∅) (Some "s1") "uuid-1").

(** C9 (as stated, refuted): an unknown id gets 202 'processing', but a
    session whose response is still being produced gets 200 with its
    response record ([done] false); the two are distinguishable. *)
Lemma unknown_and_pending_distinguishable :
  get_live_response one_session_state "unknown" = (202%Z, BodyProcessing, one_session_state)
  /\ fst (get_live_response one_session_state "s1") = (200%Z, BodyResponse fresh_response)
  /\ rr_done fresh_response = false.
Proof. vm_compute. repeat split. Qed.

(** C9 (amended): for an id without a stored response,
    [get_current_response] returns [None] and the polling endpoint answers
    202 'processing' without touching the store; for an id with a stored
    response (even one not done yet) it answers 200 with that response. *)
Theorem get_current_response_unknown (st : live_state) (sid : string) :
  (session_responses st !! sid = None ->
     get_current_response st sid = None
     /\ get_live_response st sid = (202%Z, BodyProcessing, st))
  /\ (forall r, session_responses st !! sid = Some r ->
        get_current_response st sid = Some r
        /\ fst (get_live_response st sid) = (200%Z, BodyResponse r)).
Proof.
  unfold get_live_response, get_current_response. split.
  - intros H. rewrite H. split; reflexivity.
  - intros r H. rewrite H. split; reflexivity.
Qed.

Lemma get_current_response_unknown_witness :
  get_current_response one_session_state "unknown" = None
  /\ fst (get_live_response one_session_state "s1") = (200%Z, BodyResponse fresh_response).
Proof.
  split.
  - apply (get_current_response_unknown one_session_state "unknown"). vm_compute. reflexivity.
  - apply (get_current_response_unknown one_session_state "s1"). vm_compute. reflexivity.
Defined.

(** C10: on an existing active session, [handle_audio_chunk] appends
    exactly [pcm_bytes] to that session's [audio] list, keeps its other
    fields, answers "audio chunk received" and leaves every other session
    as it was; on a missing or inactive session it answers
    "Invalid session" and leaves the whole service state unchanged. *)
Theorem handle_audio_chunk_spec (st : l2_state) (sid : string) (pcm_bytes : list byte) :
  (forall s, sessions st !! sid = Some s -> active s = true ->
     fst (handle_audio_chunk st sid pcm_bytes) = ReplyStatus "audio chunk received"
     /\ sessions (snd (handle_audio_chunk st sid pcm_bytes)) !! sid
        = Some (L2Session (audio s ++ [pcm_bytes]) (active s) (socket_set s))
     /\ (forall sid', sid' <> sid ->
           sessions (snd (handle_audio_chunk st sid pcm_bytes)) !! sid'
           = sessions st !! sid'))
  /\ ((forall s, sessions st !! sid = Some s -> active s = false) ->
      handle_audio_chunk st sid pcm_bytes = (ReplyError "Invalid session", st)).
Proof.
  unfold handle_audio_chunk. split.
  - intros s Hs Ha. rewrite Hs, Ha. cbn [fst snd sessions].
    split; [reflexivity|split].
    + apply lookup_insert_eq.
    + intros sid' Hne. apply lookup_insert_ne. congruence.
  - intros Hinact. destruct (sessions st !! sid) as [s|] eqn:Hs; [|reflexivity].
    rewrite (Hinact s eq_refl). reflexivity.
Qed.

(** A Live2 service with one active session "s1" and its event loop set. *)
Definition live2_state : l2_state :=
  snd (l2_create_session (L2State ∅ true []) "s1").

Lemma handle_audio_chunk_spec_witness :
  sessions (snd (handle_audio_chunk live2_state "s1" [x01; x02])) !! "s1"
  = Some (L2Session [[x01; x02]] true false).
Proof.
  destruct (handle_audio_chunk_spec live2_state "s1" [x01; x02]) as [Hok _].
  destruct (Hok (L2Session [] true false)) as (_ & Hs & _);
    [vm_compute; reflexivity|reflexivity|].
  exact Hs.
Defined.

(** C2 (as stated, refuted): [GeminiLive2Service.end_session] called twice
    on an existing id answers [True] both times and keeps the entry. *)
Lemma l2_end_session_twice_true :
  let '(b1, st1) := l2_end_session live2_state "s1" in
  let '(b2, st2) := l2_end_session st1 "s1" in
  b1 = true /\ b2 = true /\ sessions st2 !! "s1" = Some (L2Session [] false false).
Proof. vm_compute. repeat split. Qed.

(** C2 (amended): [GeminiLive2Service.end_session] only marks a known
    session inactive, keeping its registry entry, and answers [True] on
    every call for it ([False] for an unknown id, state unchanged);
    [GeminiLiveService.end_session] removes the entry and the stored
    response on the first call, and a second call finds no entry and
    changes nothing. *)
Theorem end_session_twice (st : l2_state) (lst : live_state) (sid : string) :
  (forall s, sessions st !! sid = Some s ->
     let '(b1, st1) := l2_end_session st sid in
     let '(b2, st2) := l2_end_session st1 sid in
     b1 = true /\ b2 = true
     /\ sessions st1 !! sid = Some (L2Session (audio s) false (socket_set s))
     /\ st2 = st1)
  /\ (sessions st !! sid = None -> l2_end_session st sid = (false, st))
  /\ (let '(u1, lst1) := end_session lst sid in
      active_sessions lst1 !! sid = None
      /\ session_responses lst1 !! sid = match active_sessions lst !! sid with
                                          | Some _ => None
                                          | None => session_responses lst !! sid
                                          end
      /\ snd (end_session lst1 sid) = lst1).
Proof.
  split; [|split].
  - intros s Hs. unfold l2_end_session at 1. rewrite Hs.
    unfold l2_end_session. cbn [sessions]. rewrite lookup_insert_eq.
    split; [reflexivity|split; [reflexivity|split; [reflexivity|]]].
    destruct st as [ss ls sc]. cbn [sessions loop_set scheduled audio active socket_set].
    rewrite insert_insert_eq. reflexivity.
  - intros Hs. unfold l2_end_session. rewrite Hs. reflexivity.
  - unfold end_session.
    destruct (active_sessions lst !! sid) as [d|] eqn:Hd; cbn [active_sessions session_responses].
    + rewrite !lookup_delete_eq. repeat split.
    + rewrite Hd. repeat split.
Qed.

Lemma end_session_twice_witness :
  (let '(b1, st1) := l2_end_session live2_state "s1" in
   let '(b2, st2) := l2_end_session st1 "s1" in
   b1 = true /\ b2 = true
   /\ sessions st1 !! "s1" = Some (L2Session [] false false)
   /\ st2 = st1)
  /\ l2_end_session live2_state "unknown" = (false, live2_state)
  /\ (let '(u1, lst1) := end_session one_session_state "s1" in
      active_sessions lst1 !! "s1" = None
      /\ session_responses lst1 !! "s1" = None
      /\ snd (end_session lst1 "s1") = lst1).
Proof.
  destruct (end_session_twice live2_state one_session_state "s1") as (Hknown & _ & Hlive).
  destruct (end_session_twice live2_state one_session_state "unknown") as (_ & Hnone & _).
  split; [|split].
  - apply (Hknown (L2Session [] true false)). vm_compute. reflexivity.
  - apply Hnone. vm_compute. reflexivity.
  - exact Hlive.
Defined.

(** C3 (as stated, refuted): [create_session] hands the id back before the
    handshake runs; after the handshake fails, the entry is still in the
    registry. *)
Lemma create_session_failed_handshake_keeps_entry :
  let '(sid, st1) := create_session (LiveState ∅ ∅) (Some "s1") "uuid-1" in
  sid = "s1"
  /\ active_sessions (connect_outcome false sid st1) !! "s1"
     = Some (set_connected false new_session_data).
Proof. vm_compute. split; reflexivity. Qed.

(** C3 (amended): [create_session] always returns the session id (the
    given one, or a fresh uuid) without waiting for the handshake; when
    the handshake later fails, the background task only sets the entry's
    [connected] flag to [False] and the entry stays in the registry. *)
Theorem create_session_then_failed_handshake (st : live_state)
    (session_id : option string) (fresh : string) :
  let '(sid, st1) := create_session st session_id fresh in
  sid = match session_id with Some s => s | None => fresh end
  /\ active_sessions (connect_outcome false sid st1) !! sid
     = Some (set_connected false new_session_data)
  /\ session_responses (connect_outcome false sid st1) !! sid = Some fresh_response.
Proof.
  unfold create_session, connect_outcome. cbn [active_sessions session_responses].
  split; [reflexivity|split].
  - rewrite lookup_alter, lookup_insert_eq, decide_True; reflexivity.
  - apply lookup_insert_eq.
Qed.

(* ================================================================== *)
(** * Further properties of the code *)

(* ------------------------------------------------------------------ *)
(** ** Turns *)

Lemma text_step_spec (sd : session_data) (acc : string) (r : live_response) :
  text_step sd acc r
  = (fold_left String.append (reply_text r) acc,
     if attached sd then map (fun t => Emit (ResponseChunk t)) (reply_text r) else []).
Proof.
  unfold text_step, reply_text.
  destruct (r_text r) as [t|]; [destruct (str_truthy t)|]; destruct (attached sd);
    reflexivity.
Qed.

Lemma chunk_texts_chunks (l : list string) :
  chunk_texts (map (fun t => Emit (ResponseChunk t)) l) = l.
Proof. induction l as [|t l IH]; [reflexivity|]. exact (f_equal (cons t) IH). Qed.

Lemma chunks_quiet (l : list string) : quiet (map (fun t => Emit (ResponseChunk t)) l).
Proof. induction l as [|t l (H1 & H2 & H3)]; [repeat split|]. proj_simpl. auto. Qed.

(** A run of plain replies leaves the session data alone, accumulates
    their texts in order and streams each as a chunk when attached. *)
Lemma receive_loop_plain (E : env) (lv : task_locals) (sd : session_data) (acc : string)
    (rs : list live_response) :
  Forall plain rs ->
  exists tr,
    receive_loop E lv sd acc rs = LoopOk sd (fold_left String.append (reply_texts rs) acc) tr
    /\ quiet tr
    /\ chunk_texts tr = (if attached sd then reply_texts rs else []).
Proof.
  intros Hrs. revert acc.
  induction Hrs as [|r rs [Htool Heot] _ IH]; intros acc.
  - exists []. split; [reflexivity|split; [repeat split|destruct (attached sd); reflexivity]].
  - cbn [receive_loop]. rewrite text_step_spec, Htool, Heot.
    destruct (IH (fold_left String.append (reply_text r) acc)) as (tr & Heq & Hq & Hc).
    rewrite Heq. cbn [prepend_effects].
    exists ((if attached sd then map (fun t => Emit (ResponseChunk t)) (reply_text r) else [])
            ++ tr).
    unfold reply_texts. cbn [flat_map]. rewrite fold_left_app.
    split; [reflexivity|split].
    + apply quiet_app; [destruct (attached sd); [apply chunks_quiet|repeat split]|exact Hq].
    + unfold chunk_texts in *. rewrite flat_map_app. fold (chunk_texts (map (fun t => Emit (ResponseChunk t)) (reply_text r))).
      rewrite Hc. destruct (attached sd); [rewrite chunk_texts_chunks; reflexivity|reflexivity].
Qed.

Lemma send_step_no_chunks (E : env) (m : string) (f : option string) (sent : list effect) :
  send_step E m f = Some sent -> chunk_texts sent = [].
Proof.
  unfold send_step. intros H.
  destruct f as [f|]; [destruct (str_truthy f); [destruct (decode_frame E f)|]|];
    inversion H; subst; reflexivity.
Qed.

Lemma stream_no_chunks (E : env) (x : string) :
  chunk_texts (map Emit (stream_tts_audio E x)) = [].
Proof.
  induction (stream_tts_audio_only_audio E x) as [|ev evs Hev _ IH]; [reflexivity|].
  destruct ev; try discriminate Hev; exact IH.
Qed.

Lemma stream_no_completes (E : env) (x : string) :
  flat_map complete_of (map Emit (stream_tts_audio E x)) = [].
Proof. apply (quiet_audio _ (stream_tts_audio_only_audio E x)). Qed.

(** A turn whose replies are all plain (text only, the stream ending
    without an end-of-turn marker or tool call) streams every non-empty
    text as a ['response_chunk'] in order and then emits one
    ['response_complete'] carrying their concatenation. *)
Theorem text_only_turn (E : env) (lv : task_locals) (sd : session_data) (message : string)
    (frame : option string) (sent : list effect) (rs : list live_response) :
  attached sd = true -> rc_sent sd = false ->
  send_step E message frame = Some sent ->
  Forall plain rs ->
  complete_texts (turn_effects (process_turn E lv sd message frame rs))
  = [fold_left String.append (reply_texts rs) ""]
  /\ chunk_texts (turn_effects (process_turn E lv sd message frame rs)) = reply_texts rs.
Proof.
  intros Hatt Hrc Hsend Hrs.
  destruct (receive_loop_plain E lv sd "" rs Hrs) as (tr & Hloop & (Hc & _) & Hch).
  pose proof (send_step_quiet E message frame sent Hsend) as (Hs & _).
  pose proof (send_step_no_chunks E message frame sent Hsend) as Hsc.
  unfold process_turn. rewrite Hsend, Hloop, Hatt, Hrc. cbn [andb negb].
  rewrite Hatt in Hch.
  (* whether or not the task then stops on the unbound [response] *)
  destruct (response_bound lv || negb (Nat.eqb (length rs) 0)); cbn [turn_effects];
  unfold complete_texts, chunk_texts in *; rewrite !flat_map_app;
  cbn [flat_map complete_of chunk_of app];
  rewrite Hs, Hc, Hsc, Hch, stream_no_completes;
  fold (chunk_texts (map Emit (stream_tts_audio E (fold_left String.append (reply_texts rs) ""))));
  rewrite stream_no_chunks; simpl; rewrite app_nil_r; split; reflexivity.
Qed.

Lemma text_only_turn_witness :
  complete_texts (turn_effects (process_turn sample_env initial_locals attached_sd "hello" None
    [LiveResponse (Some "Hel") None false; LiveResponse None None false;
     LiveResponse (Some "lo") None false]))
  = ["Hello"].
Proof.
  apply (text_only_turn sample_env initial_locals attached_sd "hello" None
           [ToRemote (SendInput "hello" None)]); try reflexivity.
  repeat constructor.
Defined.

(** The outcome of a plain text-only turn, with its session data. *)
Lemma plain_turn_outcome (E : env) (lv : task_locals) (sd : session_data) (message : string)
    (frame : option string) (sent : list effect) (rs : list live_response) :
  attached sd = true -> rc_sent sd = false ->
  send_step E message frame = Some sent ->
  rs <> [] -> Forall plain rs ->
  exists tr,
    process_turn E lv sd message frame rs = TurnDone (set_rc_sent false (set_rc_sent true sd)) tr
    /\ complete_texts tr = [fold_left String.append (reply_texts rs) ""].
Proof.
  intros Hatt Hrc Hsend Hne Hrs.
  assert (Hlen : Nat.eqb (length rs) 0 = false) by (destruct rs; [congruence|reflexivity]).
  destruct (receive_loop_plain E lv sd "" rs Hrs) as (tr & Hloop & (Hc & _) & _).
  pose proof (send_step_quiet E message frame sent Hsend) as (Hs & _).
  unfold process_turn. rewrite Hsend, Hloop, Hatt, Hrc, Hlen. cbn [andb negb].
  rewrite orb_true_r.
  eexists. split; [reflexivity|].
  unfold complete_texts in *. rewrite !flat_map_app. cbn [flat_map complete_of app].
  rewrite Hs, Hc, stream_no_completes. reflexivity.
Qed.

Definition sent_plain (E : env) (msg : string * option string * list live_response) : Prop :=
  match msg with
  | (message, frame, rs) => send_step E message frame <> None /\ rs <> [] /\ Forall plain rs
  end.

Definition turn_text (msg : string * option string * list live_response) : string :=
  match msg with (_, _, rs) => fold_left String.append (reply_texts rs) "" end.

(** Over a run of messages on an attached session, each sent to the
    service and answered with plain text replies, the task emits exactly
    one ['response_complete'] per message, carrying that message's reply
    text, and never crashes: the [_response_complete_sent] safeguard is
    reset after each message.  Each message is answered by at least one
    reply; on the task's first message an empty reply stream would leave
    the local [response] unbound at the final log line. *)
Theorem text_turns_one_complete_each (E : env) (lv : task_locals) (sd : session_data)
    (msgs : list (string * option string * list live_response)) :
  attached sd = true -> rc_sent sd = false ->
  Forall (sent_plain E) msgs ->
  exists sd' tr,
    run_turns E lv sd msgs = TurnDone sd' tr
    /\ complete_texts tr = map turn_text msgs.
Proof.
  intros Hatt Hrc Hmsgs. revert lv sd Hatt Hrc.
  induction Hmsgs as [|[[message frame] rs] msgs [Hsend [Hne Hrs]] _ IH]; intros lv sd Hatt Hrc.
  - exists sd, []. split; reflexivity.
  - destruct (send_step E message frame) as [sent|] eqn:Hs; [|congruence].
    destruct (plain_turn_outcome E lv sd message frame sent rs Hatt Hrc Hs Hne Hrs) as (tr & Ht & Hc).
    destruct (IH (turn_locals E lv message frame rs) (set_rc_sent false (set_rc_sent true sd)) Hatt eq_refl)
      as (sd' & tr2 & Hrun & Hc2).
    exists sd', (tr ++ tr2). cbn [run_turns]. rewrite Ht, Hrun. split; [reflexivity|].
    unfold complete_texts in *. rewrite flat_map_app, Hc, Hc2. reflexivity.
Qed.

Lemma text_turns_one_complete_each_witness :
  exists sd' tr,
    run_turns sample_env initial_locals attached_sd
      [("hi", None, [LiveResponse (Some "Hel") None false; LiveResponse (Some "lo") None false]);
       ("again", None, [LiveResponse (Some "Bye") None false])] = TurnDone sd' tr
    /\ complete_texts tr = ["Hello"; "Bye"].
Proof.
  apply (text_turns_one_complete_each sample_env initial_locals attached_sd); try reflexivity.
  repeat constructor; discriminate.
Defined.

(** Every message that does not crash the task ends with the
    [_response_complete_sent] flag cleared, when it was clear before. *)
Lemma process_turn_rc_sent (E : env) (lv : task_locals) (sd sd' : session_data) (message : string)
    (frame : option string) (rs : list live_response) (tr : list effect) :
  rc_sent sd = false ->
  process_turn E lv sd message frame rs = TurnDone sd' tr -> rc_sent sd' = false.
Proof.
  intros Hrc. unfold process_turn.
  destruct (send_step E message frame); [|intros H; inversion H; subst; exact Hrc].
  destruct (receive_loop E lv sd "" rs); [|discriminate].
  destruct (attached sd0 && negb (rc_sent sd0));
    destruct (response_bound lv || negb (Nat.eqb (length rs) 0)); intros H; inversion H; reflexivity.
Qed.

(** The [_response_complete_sent] flag is clear after any run of messages
    that did not crash the background task, whatever the replies were
    (tool calls, end-of-turn markers, undecodable frames). *)
Theorem run_turns_rc_sent_cleared (E : env) (lv : task_locals) (sd sd' : session_data)
    (msgs : list (string * option string * list live_response)) (tr : list effect) :
  rc_sent sd = false ->
  run_turns E lv sd msgs = TurnDone sd' tr -> rc_sent sd' = false.
Proof.
  revert lv sd tr. induction msgs as [|[[message frame] rs] msgs IH]; intros lv sd tr Hrc.
  - intros H. inversion H; subst. exact Hrc.
  - cbn [run_turns].
    destruct (process_turn E lv sd message frame rs) as [sd1 tr1|e tr1] eqn:Ht; [|discriminate].
    pose proof (process_turn_rc_sent E lv sd sd1 message frame rs tr1 Hrc Ht) as Hrc1.
    destruct (run_turns E (turn_locals E lv message frame rs) sd1 msgs) as [sd2 tr2|e tr2] eqn:Hrun;
      [|discriminate].
    intros H. inversion H; subst. exact (IH _ sd1 tr2 Hrc1 Hrun).
Qed.

Lemma run_turns_rc_sent_cleared_witness :
  rc_sent attached_sd = false /\
  run_turns sample_env initial_locals attached_sd
    [("find me a jacket", None, [LiveResponse None (Some two_calls) false]);
     ("photo", Some "bad-frame", [])]
  = TurnDone (set_rc_sent false (set_rc_sent true (set_fr_sent true attached_sd)))
      (turn_effects (run_turns sample_env initial_locals attached_sd
        [("find me a jacket", None, [LiveResponse None (Some two_calls) false]);
         ("photo", Some "bad-frame", [])]))
  /\ rc_sent (set_rc_sent false (set_rc_sent true (set_fr_sent true attached_sd))) = false.
Proof.
  split; [reflexivity|]. split; [vm_compute; reflexivity|].
  apply (run_turns_rc_sent_cleared sample_env initial_locals attached_sd _
           [("find me a jacket", None, [LiveResponse None (Some two_calls) false]);
            ("photo", Some "bad-frame", [])]
           (turn_effects (run_turns sample_env initial_locals attached_sd
              [("find me a jacket", None, [LiveResponse None (Some two_calls) false]);
               ("photo", Some "bad-frame", [])]))); [reflexivity|vm_compute; reflexivity].
Defined.





(** On a session never attached to a Socket.IO client (messages came
    through [process_user_message]), a successful [search_products] call
    crashes the background task when the fallback completion is emitted,
    so the function response is never sent back and no
    ['response_complete'] is produced.  The exception depends on the task's
    history: the local [socketio] is only assigned by an earlier message
    (to [session_data.get("socketio")], i.e. [None]), giving an
    AttributeError; on the task's first message it is unbound, giving an
    UnboundLocalError. *)
Theorem unattached_search_turn_crashes (E : env) (lv : task_locals) (sd : session_data)
    (message : string) (frame : option string) (sent : list effect)
    (pre post : list live_response) (r : live_response) (c : fcall) (cs : list fcall)
    (fr : tool_response) (res : list item) :
  attached sd = false -> rc_sent sd = false ->
  send_step E message frame = Some sent ->
  Forall plain pre ->
  r_tool_call r = Some (c :: cs) ->
  fc_name c = "search_products" ->
  execute_function E (fc_name c) (fc_args c) = Ok fr ->
  results_of fr = Some res ->
  exists tr,
    process_turn E lv sd message frame (pre ++ r :: post)
    = TurnCrash (if socketio_bound lv then attribute_error else unbound_local "socketio") tr
    /\ answers tr = [] /\ complete_texts tr = [].
Proof.
  intros Hatt Hrc Hsend Hpre Hr Hname Hexec Hres.
  unfold process_turn. rewrite Hsend.
  destruct (receive_loop_plain_app E lv sd "" pre (r :: post) Hpre)
    as (acc' & chunks & Hloop & Hq). rewrite Hloop.
  cbn [receive_loop].
  pose proof (text_step_quiet sd acc' r) as Hq1.
  destruct (text_step sd acc' r) as [acc1 tr1]. rewrite Hr.
  unfold tool_step. rewrite Hexec, Hname, String.eqb_refl, Hres.
  cbn [rc_sent set_fr_sent attached]. rewrite Hrc, Hatt.
  cbn [prepend_effects].
  eexists. split; [reflexivity|].
  destruct (send_step_quiet E message frame sent Hsend) as (Hs & _ & Ha).
  destruct Hq as (Hc & _ & Hac). destruct Hq1 as (Hc1 & _ & Ha1). simpl in Hc1, Ha1.
  proj_simpl. rewrite Hs, Hc, Hc1, Ha, Hac, Ha1. split; reflexivity.
Qed.

Lemma unattached_search_turn_crashes_witness :
  (exists tr,
    process_turn sample_env initial_locals (SessionData true true false false false) "find me a jacket" None
      ([] ++ LiveResponse None (Some two_calls) false :: [])
    = TurnCrash (unbound_local "socketio") tr
    /\ answers tr = [] /\ complete_texts tr = [])
  /\ (exists tr,
    process_turn sample_env (TaskLocals true true) (SessionData true true false false false)
      "find me a jacket" None ([] ++ LiveResponse None (Some two_calls) false :: [])
    = TurnCrash attribute_error tr
    /\ answers tr = [] /\ complete_texts tr = []).
Proof.
  split.
  - apply (unattached_search_turn_crashes sample_env initial_locals (SessionData true true false false false)
             "find me a jacket" None [ToRemote (SendInput "find me a jacket" None)] [] []
             (LiveResponse None (Some two_calls) false)
             (FCall "call-1" "search_products" [("query", "jacket")])
             [FCall "call-2" "search_products" [("query", "coat")]]
             (TRData (SearchData (Some ten_items))) ten_items);
      try reflexivity.
    constructor.
  - apply (unattached_search_turn_crashes sample_env (TaskLocals true true)
             (SessionData true true false false false)
             "find me a jacket" None [ToRemote (SendInput "find me a jacket" None)] [] []
             (LiveResponse None (Some two_calls) false)
             (FCall "call-1" "search_products" [("query", "jacket")])
             [FCall "call-2" "search_products" [("query", "coat")]]
             (TRData (SearchData (Some ten_items))) ten_items);
      try reflexivity.
    constructor.
Defined.

(* ------------------------------------------------------------------ *)
(** ** Message intake and the session registry *)

(** After [create_session] whose connection handshake then fails, the two
    intake paths disagree: the Socket.IO path refuses the message with
    "Session not connected" and leaves the state alone, while the HTTP path
    [process_user_message] still accepts and enqueues it for a background
    task that has already returned. *)
Theorem failed_handshake_intake_paths (st : live_state) (sid fresh message : string)
    (frame : option string) :
  let st2 := connect_outcome false sid (snd (create_session st (Some sid) fresh)) in
  process_user_message_socketio st2 sid message frame = (SioError "Session not connected", st2)
  /\ process_user_message st2 sid message = PumEnqueued message.
Proof.
  unfold process_user_message_socketio, process_user_message, connect_outcome, create_session.
  cbn [snd active_sessions session_responses].
  rewrite lookup_alter, lookup_insert_eq, decide_True by reflexivity. simpl. split; reflexivity.
Qed.

(** After a successful handshake the Socket.IO path enqueues the message
    and records the client in the entry, leaving the response store alone. *)
Theorem connected_socket_intake (st : live_state) (sid fresh message : string)
    (frame : option string) :
  let st2 := connect_outcome true sid (snd (create_session st (Some sid) fresh)) in
  fst (process_user_message_socketio st2 sid message frame) = SioEnqueued message frame
  /\ active_sessions (snd (process_user_message_socketio st2 sid message frame)) !! sid
     = Some {| connected := true; task_running := true; attached := true;
               rc_sent := false; fr_sent := false |}
  /\ session_responses (snd (process_user_message_socketio st2 sid message frame))
     = session_responses st2.
Proof.
  unfold process_user_message_socketio, connect_outcome, create_session.
  cbn [snd active_sessions session_responses].
  rewrite lookup_alter, lookup_insert_eq, decide_True by reflexivity. simpl.
  rewrite lookup_insert_eq. split; [reflexivity|split; reflexivity].
Qed.

(** [clear_response] keeps a stored response stored. *)
Lemma clear_response_keeps (st : live_state) (sid : string) (r : response_rec) :
  session_responses st !! sid = Some r ->
  exists r', session_responses (clear_response st sid) !! sid = Some r'.
Proof.
  intros H. unfold clear_response. rewrite H.
  destruct (rr_done r); simpl; [rewrite lookup_insert_eq|rewrite H]; eauto.
Qed.

(** Once a response dict is stored for a session, every poll of
    [GET /api/live/response/<id>] answers 200: [clear_response] resets the
    dict rather than removing it, so the endpoint never returns to 202. *)
Theorem polls_stay_200 (n : nat) (st : live_state) (sid : string) (r : response_rec) :
  session_responses st !! sid = Some r ->
  poll_codes n st sid = repeat 200%Z n.
Proof.
  revert st r. induction n as [|n IH]; intros st r H; [reflexivity|].
  cbn [poll_codes]. unfold get_live_response, get_current_response.
  destruct (clear_response_keeps st sid r H) as [r' H'].
  rewrite H. cbn [repeat]. f_equal. exact (IH _ r' H').
Qed.

Lemma polls_stay_200_witness :
  poll_codes 3 (snd (create_session (LiveState ∅ ∅) None "s1")) "s1" = [200%Z; 200%Z; 200%Z].
Proof.
  apply (polls_stay_200 3 _ "s1" fresh_response). reflexivity.
Defined.

(** After [end_session] on a registered session, polling answers 202
    (processing) and both intake paths answer "Session not found". *)
Theorem end_session_forgets (st : live_state) (sid message : string)
    (frame : option string) (sd : session_data) :
  active_sessions st !! sid = Some sd ->
  let st' := snd (end_session st sid) in
  get_live_response st' sid = (202%Z, BodyProcessing, st')
  /\ process_user_message st' sid message = PumError "Session not found"
  /\ process_user_message_socketio st' sid message frame = (SioError "Session not found", st').
Proof.
  intros H st'. subst st'. unfold end_session. rewrite H. cbn [snd].
  unfold get_live_response, get_current_response, process_user_message,
    process_user_message_socketio. cbn [active_sessions session_responses].
  rewrite !lookup_delete_eq. split; [reflexivity|split; reflexivity].
Qed.

Lemma end_session_forgets_witness :
  get_live_response (snd (end_session (snd (create_session (LiveState ∅ ∅) None "s1")) "s1")) "s1"
  = (202%Z, BodyProcessing, snd (end_session (snd (create_session (LiveState ∅ ∅) None "s1")) "s1")).
Proof.
  apply (end_session_forgets (snd (create_session (LiveState ∅ ∅) None "s1")) "s1" "hi" None
           new_session_data).
  reflexivity.
Defined.

(** [POST /api/live/end] with a non-empty session id always answers 404
    "Failed to end session", because [end_session] returns [None]; the
    session is removed all the same. *)
Theorem end_live_session_http_404 (st : live_state) (sid : string) :
  str_truthy sid = true ->
  let '(code, msg, st') := end_live_session_http st (Some sid) in
  code = 404%Z /\ msg = "Failed to end session"
  /\ st' = snd (end_session st sid) /\ active_sessions st' !! sid = None.
Proof.
  intros Hs. unfold end_live_session_http. rewrite Hs. cbn [negb].
  unfold end_session. destruct (active_sessions st !! sid) eqn:Ha.
  - cbn. rewrite lookup_delete_eq. repeat split.
  - repeat split. exact Ha.
Qed.

Lemma end_live_session_http_404_witness :
  str_truthy "s1" = true /\
  fst (fst (end_live_session_http (snd (create_session (LiveState ∅ ∅) None "s1")) (Some "s1")))
  = 404%Z.
Proof.
  split; [reflexivity|].
  pose proof (end_live_session_http_404 (snd (create_session (LiveState ∅ ∅) None "s1")) "s1"
                eq_refl) as H.
  destruct (end_live_session_http (snd (create_session (LiveState ∅ ∅) None "s1")) (Some "s1"))
    as [[code msg] st'].
  destruct H as (Hc & _). exact Hc.
Defined.

(* ------------------------------------------------------------------ *)
(** ** [GeminiLive2Service]: status and audio intake *)

Lemma l2_active_ids_spec (st : l2_state) (j : string) :
  In j (fst (l2_get_status st)) <-> exists s, sessions st !! j = Some s /\ active s = true.
Proof.
  unfold l2_get_status. cbn [fst]. rewrite List.in_map_iff. split.
  - intros ([k s] & Hk & Hin). cbn [fst] in Hk. subst k.
    apply List.filter_In in Hin as [Hin Ha].
    apply list_elem_of_In, elem_of_map_to_list in Hin. eauto.
  - intros (s & Hs & Ha). exists (j, s). split; [reflexivity|].
    apply List.filter_In. split; [|exact Ha].
    apply list_elem_of_In, elem_of_map_to_list. exact Hs.
Qed.

(** Ending a known Live2 session removes it from the active ids of
    [get_status] but not from the total count, and leaves the activity of
    every other session as it was. *)
Theorem l2_end_session_status (st : l2_state) (sid : string) (s : l2_session) :
  sessions st !! sid = Some s ->
  let st' := snd (l2_end_session st sid) in
  ~ In sid (fst (l2_get_status st'))
  /\ snd (l2_get_status st') = snd (l2_get_status st)
  /\ (forall j, j <> sid -> In j (fst (l2_get_status st')) <-> In j (fst (l2_get_status st))).
Proof.
  intros H st'. subst st'. unfold l2_end_session. rewrite H. cbn [snd].
  split; [|split].
  - rewrite l2_active_ids_spec. cbn [sessions]. rewrite lookup_insert_eq.
    intros (s' & Hs' & Ha). inversion Hs'; subst. discriminate Ha.
  - unfold l2_get_status. cbn [snd sessions]. apply map_size_insert_Some. eauto.
  - intros j Hj. rewrite !l2_active_ids_spec. cbn [sessions].
    rewrite lookup_insert_ne by congruence. reflexivity.
Qed.

Lemma l2_end_session_status_witness :
  ~ In "a" (fst (l2_get_status (snd (l2_end_session
         (snd (l2_create_session (L2State ∅ true []) "a")) "a")))).
Proof.
  apply (l2_end_session_status (snd (l2_create_session (L2State ∅ true []) "a")) "a"
           (L2Session [] true false)).
  reflexivity.
Defined.

(** [create_session] with a new id adds one to the total of [get_status]
    and lists the id among the active sessions. *)
Theorem l2_create_session_status (st : l2_state) (fresh : string) :
  sessions st !! fresh = None ->
  let '(sid, st') := l2_create_session st fresh in
  sid = fresh
  /\ In sid (fst (l2_get_status st'))
  /\ snd (l2_get_status st') = S (snd (l2_get_status st)).
Proof.
  intros H. unfold l2_create_session. split; [reflexivity|split].
  - apply l2_active_ids_spec. cbn [sessions]. rewrite lookup_insert_eq. eauto.
  - unfold l2_get_status. cbn [snd sessions]. apply map_size_insert_None. exact H.
Qed.

Lemma l2_create_session_status_witness :
  snd (l2_get_status (snd (l2_create_session (L2State ∅ true []) "a"))) = 1.
Proof.
  pose proof (l2_create_session_status (L2State ∅ true []) "a" eq_refl) as H.
  destruct (l2_create_session (L2State ∅ true []) "a") as [sid st'].
  destruct H as (_ & _ & H). cbn [snd] in *. rewrite H. reflexivity.
Defined.

(** Feeding chunks one by one to an active Live2 session acknowledges each
    one, appends them all to the session's audio buffer in order, and, when
    the event loop is set, schedules one queue put per chunk, in order. *)
Theorem handle_audio_chunks_active (st : l2_state) (sid : string) (s : l2_session)
    (chunks : list (list byte)) :
  sessions st !! sid = Some s -> active s = true ->
  let '(rs, st') := handle_audio_chunks st sid chunks in
  rs = repeat (ReplyStatus "audio chunk received") (length chunks)
  /\ sessions st' = <[sid := L2Session (audio s ++ chunks) true (socket_set s)]> (sessions st)
  /\ loop_set st' = loop_set st
  /\ scheduled st' = scheduled st ++ (if loop_set st then map (pair sid) chunks else []).
Proof.
  revert st s. induction chunks as [|c cs IH]; intros st s Hs Ha.
  - cbn [handle_audio_chunks repeat length map].
    destruct s as [au act so]. cbn [active audio socket_set] in *. subst act.
    rewrite app_nil_r, insert_id by exact Hs.
    destruct (loop_set st); rewrite app_nil_r; repeat split.
  - cbn [handle_audio_chunks]. unfold handle_audio_chunk at 1. rewrite Hs, Ha.
    set (st1 := {| sessions := _; loop_set := _; scheduled := _ |}).
    specialize (IH st1 (L2Session (audio s ++ [c]) true (socket_set s))).
    destruct (handle_audio_chunks st1 sid cs) as [rs st2].
    destruct IH as (Hrs & Hss & Hl & Hsc).
    { subst st1. cbn [sessions]. rewrite lookup_insert_eq. reflexivity. }
    { reflexivity. }
    subst st1. cbn [sessions loop_set scheduled audio socket_set] in *.
    split; [rewrite Hrs; reflexivity|split; [|split]].
    + rewrite Hss, insert_insert_eq, <- app_assoc. reflexivity.
    + exact Hl.
    + rewrite Hsc. destruct (loop_set st); cbn; [rewrite <- app_assoc|rewrite app_nil_r];
        reflexivity.
Qed.

Lemma handle_audio_chunks_active_witness :
  scheduled (snd (handle_audio_chunks (snd (l2_create_session (L2State ∅ true []) "a")) "a"
                   [[x01]; [x02]]))
  = [("a", [x01]); ("a", [x02])].
Proof.
  pose proof (handle_audio_chunks_active (snd (l2_create_session (L2State ∅ true []) "a")) "a"
                (L2Session [] true false) [[x01]; [x02]] eq_refl eq_refl) as H.
  destruct (handle_audio_chunks (snd (l2_create_session (L2State ∅ true []) "a")) "a"
              [[x01]; [x02]]) as [rs st'].
  destruct H as (_ & _ & _ & H). cbn [snd] in *. rewrite H. reflexivity.
Defined.

(* ------------------------------------------------------------------ *)
(** ** Tool calls without a query *)

(** A prefix of plain replies streams their texts and accumulates them. *)
Lemma receive_loop_plain_prefix (E : env) (lv : task_locals) (sd : session_data) (acc : string)
    (pre rs : list live_response) :
  Forall plain pre ->
  exists chunks,
    receive_loop E lv sd acc (pre ++ rs)
    = prepend_effects chunks (receive_loop E lv sd (fold_left String.append (reply_texts pre) acc) rs)
    /\ quiet chunks.
Proof.
  intros Hpre. revert acc.
  induction Hpre as [|r pre [Htool Heot] _ IH]; intros acc.
  - exists []. split; [simpl; destruct (receive_loop E lv sd acc rs); reflexivity|repeat split].
  - cbn [app receive_loop]. pose proof (text_step_quiet sd acc r) as Hq.
    rewrite text_step_spec in *. rewrite Htool, Heot.
    destruct (IH (fold_left String.append (reply_text r) acc)) as (chunks & Heq & Hq').
    eexists. rewrite Heq, prepend_effects_app.
    unfold reply_texts. cbn [flat_map]. rewrite fold_left_app.
    split; [reflexivity|]. apply quiet_app; assumption.
Qed.

(** A [search_products] call with a missing or empty ["query"] never
    reaches the search endpoint: the model gets [{"error": "No query
    provided"}] back, no ['function_result'] is emitted, and the turn's one
    ['response_complete'] carries the text streamed up to the tool call. *)
Theorem search_without_query_turn (E : env) (lv : task_locals) (sd : session_data)
    (message : string) (frame : option string) (sent : list effect)
    (pre post : list live_response) (r : live_response) (c : fcall) (cs : list fcall) :
  attached sd = true -> rc_sent sd = false ->
  send_step E message frame = Some sent ->
  Forall plain pre ->
  r_tool_call r = Some (c :: cs) ->
  fc_name c = "search_products" ->
  dict_get "query" (fc_args c) = None \/ dict_get "query" (fc_args c) = Some "" ->
  let tr := turn_effects (process_turn E lv sd message frame (pre ++ r :: post)) in
  answers tr = [(fc_id c, TRError "No query provided")]
  /\ complete_texts tr = [fold_left String.append (reply_texts (pre ++ [r])) ""].
Proof.
  intros Hatt Hrc Hsend Hpre Hr Hname Hq tr. subst tr.
  assert (Hexec : execute_function E (fc_name c) (fc_args c) = Ok (TRError "No query provided")).
  { unfold execute_function. rewrite Hname, String.eqb_refl.
    destruct Hq as [Hq|Hq]; rewrite Hq; reflexivity. }
  unfold process_turn. rewrite Hsend.
  destruct (receive_loop_plain_prefix E lv sd "" pre (r :: post) Hpre) as (chunks & Hloop & Hqc).
  rewrite Hloop. cbn [receive_loop]. rewrite text_step_spec, Hr.
  unfold tool_step. rewrite Hexec, Hname, String.eqb_refl. cbn [results_of prepend_effects].
  rewrite Hatt, Hrc, length_app_cons_neq0, orb_true_r. cbn [andb negb turn_effects].
  destruct (send_step_quiet E message frame sent Hsend) as (Hs & _ & Ha).
  destruct Hqc as (Hc & _ & Hac).
  pose proof (quiet_audio _ (stream_tts_audio_only_audio E
    (fold_left String.append (reply_text r) (fold_left String.append (reply_texts pre) ""))))
    as (Hca & _ & Haa).
  unfold reply_texts. rewrite flat_map_app, fold_left_app. cbn [flat_map]. rewrite app_nil_r.
  fold (reply_texts pre).
  pose proof (chunks_quiet (reply_text r)) as (Hcc & _ & Hacc).
  proj_simpl. rewrite Hs, Ha, Hc, Hac, Hca, Haa, Hcc, Hacc. split; reflexivity.
Qed.

Lemma search_without_query_turn_witness :
  answers (turn_effects (process_turn sample_env initial_locals attached_sd "find something" None
    ([LiveResponse (Some "Let me look. ") None false] ++
     LiveResponse None (Some [FCall "call-9" "search_products" []]) false :: [])))
  = [("call-9", TRError "No query provided")].
Proof.
  apply (search_without_query_turn sample_env initial_locals attached_sd "find something" None
           [ToRemote (SendInput "find something" None)]
           [LiveResponse (Some "Let me look. ") None false] []
           (LiveResponse None (Some [FCall "call-9" "search_products" []]) false)
           (FCall "call-9" "search_products" []) []);
    try reflexivity.
  - repeat constructor.
  - left. reflexivity.
Defined.

(* ------------------------------------------------------------------ *)
(** ** [utils.normalize_product] *)

Lemma str_truthy_false (s : string) : str_truthy s = false -> s = "".
Proof. destruct s; [reflexivity|discriminate]. Qed.

Lemma normalize_product_lookups (rand_price : string) (query : option string)
    (p : gmap string string) :
  let p' := Utils.normalize_product rand_price query p in
  p' !! "productid" = None
  /\ (exists v, p' !! "id" = Some v)
  /\ (exists v, p' !! "image_url" = Some v)
  /\ (exists v, p' !! "name" = Some v)
  /\ (exists v, p' !! "description" = Some v)
  /\ (exists v, p' !! "price" = Some v)
  /\ (exists v, p' !! "aisle" = Some v).
Proof.
  intros p'. subst p'. unfold Utils.normalize_product.
  repeat split; eexists; reflexivity.
Qed.

(** Normalizing a product twice is the same as normalizing it once,
    whatever price is drawn and query given the second time: the result has
    all six keys, with a non-empty ["id"] or none at all (empty, and no
    ["productid"] to fall back on). *)
Theorem normalize_product_idempotent (rand_price rand_price' : string)
    (query query' : option string) (p : gmap string string) :
  Utils.normalize_product rand_price query (Utils.normalize_product rand_price' query' p)
  = Utils.normalize_product rand_price' query' p.
Proof.
  set (p' := Utils.normalize_product rand_price' query' p).
  unfold Utils.normalize_product at 1. unfold Utils.dget.
  destruct (normalize_product_lookups rand_price' query' p)
    as (Hpid & [vid Hid] & [vimg Himg] & [vname Hname] & [vdesc Hdesc] & [vprice Hprice]
        & [vaisle Haisle]).
  fold p' in Hpid, Hid, Himg, Hname, Hdesc, Hprice, Haisle.
  rewrite Hpid, Hid, Himg, Hname, Hdesc, Hprice, Haisle.
  assert (Hv : (if str_truthy vid then vid else "") = vid).
  { destruct (str_truthy vid) eqn:Ht; [reflexivity|symmetry; apply str_truthy_false, Ht]. }
  rewrite Hv.
  apply map_eq. intros k.
  destruct (decide (k = "id")) as [->|Hk1]; [rewrite lookup_insert_eq; symmetry; exact Hid|].
  rewrite lookup_insert_ne by congruence.
  destruct (decide (k = "image_url")) as [->|Hk2]; [rewrite lookup_insert_eq; symmetry; exact Himg|].
  rewrite lookup_insert_ne by congruence.
  destruct (decide (k = "name")) as [->|Hk3]; [rewrite lookup_insert_eq; symmetry; exact Hname|].
  rewrite lookup_insert_ne by congruence.
  destruct (decide (k = "description")) as [->|Hk4];
    [rewrite lookup_insert_eq; symmetry; exact Hdesc|].
  rewrite lookup_insert_ne by congruence.
  destruct (decide (k = "price")) as [->|Hk5]; [rewrite lookup_insert_eq; symmetry; exact Hprice|].
  rewrite lookup_insert_ne by congruence.
  destruct (decide (k = "aisle")) as [->|Hk6]; [rewrite lookup_insert_eq; symmetry; exact Haisle|].
  rewrite lookup_insert_ne by congruence. rewrite lookup_empty.
  subst p'. unfold Utils.normalize_product.
  rewrite !lookup_insert_ne by congruence. rewrite lookup_empty. reflexivity.
Qed.

(** A field the product already has is kept as it is (the [.get] defaults
    only fill in missing keys), ["id"] included when it is non-empty. *)
Theorem normalize_product_keeps_given (rand_price : string) (query : option string)
    (p : gmap string string) (k v : string) :
  In k ["id"; "image_url"; "name"; "description"; "price"; "aisle"] ->
  p !! k = Some v -> str_truthy v = true ->
  Utils.normalize_product rand_price query p !! k = Some v.
Proof.
  intros Hin H Ht. unfold Utils.normalize_product, Utils.dget.
  simpl in Hin.
  destruct Hin as [<-|[<-|[<-|[<-|[<-|[<-|[]]]]]]];
    rewrite ?lookup_insert_ne by congruence; rewrite lookup_insert_eq, H;
    [rewrite Ht|..]; reflexivity.
Qed.

Lemma normalize_product_keeps_given_witness :
  Utils.normalize_product "$12.34" None (<["price" := "$5.00"]> ∅) !! "price" = Some "$5.00".
Proof.
  apply normalize_product_keeps_given; [simpl; tauto|reflexivity|reflexivity].
Defined.

(* ------------------------------------------------------------------ *)
(** ** [GeminiMultimodalService._process_function_call] *)

(** A results reply of [_process_function_call] only comes from a
    [search_products] call whose request succeeded, and carries at most five
    products: the first five of the endpoint's ["results"] (none when the
    reply has no such key), the same list [send_user_input_to_session]
    hands to the model. *)
Theorem process_function_call_results (requests_get : string -> py search_data)
    (name : string) (args : list (string * string)) (rs : list item) :
  Multimodal.process_function_call requests_get name args = Multimodal.FCResults rs ->
  name = "search_products"
  /\ length rs <= 5
  /\ exists data,
       requests_get (match dict_get "query" args with Some q => q | None => "" end) = Ok data
       /\ rs = results_for_model data.
Proof.
  unfold Multimodal.process_function_call.
  destruct (String.eqb name "search_products") eqn:Hn; [|discriminate].
  apply String.eqb_eq in Hn.
  destruct (requests_get _) as [data|e] eqn:Hg; [|discriminate].
  intros H. split; [exact Hn|].
  unfold results_for_model.
  destruct (sd_results data) as [all|] eqn:Hsd; inversion H; subst.
  - split; [apply firstn_le_length|]. exists data. rewrite Hsd. split; reflexivity.
  - split; [simpl; lia|]. exists data. rewrite Hsd. split; reflexivity.
Qed.

Lemma process_function_call_results_witness :
  length (match Multimodal.process_function_call
                  (fun _ => Ok (SearchData (Some ten_items))) "search_products"
                  [("query", "jacket")] with
          | Multimodal.FCResults rs => rs | _ => [] end) <= 5.
Proof.
  destruct (process_function_call_results (fun _ => Ok (SearchData (Some ten_items)))
              "search_products" [("query", "jacket")] (firstn 5 ten_items) eq_refl)
    as (_ & H & _).
  exact H.
Defined.

(* ------------------------------------------------------------------ *)
(** ** [VertexAIService.search_feature_store] *)

Lemma py_range_go_step1 (fuel i stop : nat) :
  stop - i <= fuel -> py_range_go fuel i stop 1 = seq i (stop - i).
Proof.
  revert i. induction fuel as [|fuel IH]; intros i Hf.
  - replace (stop - i) with 0 by lia. reflexivity.
  - cbn [py_range_go]. destruct (Nat.ltb_spec i stop).
    + replace (stop - i) with (S (stop - S i)) by lia. cbn [seq].
      rewrite Nat.add_1_r. f_equal. apply IH. lia.
    + replace (stop - i) with 0 by lia. reflexivity.
Qed.

Lemma py_range_0_1 (n : nat) : py_range 0 n 1 = seq 0 n.
Proof. unfold py_range. rewrite py_range_go_step1 by lia. f_equal. lia. Qed.

Lemma skipn_nth_error {A} (l : list A) (k : nat) (x : A) :
  nth_error l k = Some x -> skipn k l = x :: skipn (S k) l.
Proof.
  revert k. induction l as [|y l IH]; intros [|k] H; try discriminate.
  - inversion H; reflexivity.
  - exact (IH k H).
Qed.

Section FeatureStore.
Context (extract_id : string -> option string).

Definition neighbor_result (nb : string * string) : list (string * string) :=
  match extract_id (fst nb) with
  | Some pid => [(pid, snd nb)]
  | None => []
  end.

Lemma flat_map_seq_nth (ns : list (string * string)) (k m : nat) :
  k + m <= length ns ->
  flat_map (fun i => match nth_error ns i with
                     | Some (f8, f9) => match extract_id f8 with
                                        | Some product_id => [(product_id, f9)]
                                        | None => [] end
                     | None => [] end) (seq k m)
  = flat_map neighbor_result (firstn m (skipn k ns)).
Proof.
  revert k. induction m as [|m IH]; intros k Hm; [reflexivity|].
  destruct (nth_error ns k) as [[f8 f9]|] eqn:Hk;
    [|apply nth_error_None in Hk; lia].
  cbn [seq flat_map]. rewrite (skipn_nth_error ns k _ Hk). cbn [firstn flat_map].
  rewrite Hk, IH by lia. reflexivity.
Qed.

Lemma flat_map_neighbor_result_length (l : list (string * string)) :
  length (flat_map neighbor_result l) <= length l.
Proof.
  induction l as [|nb l IH]; [reflexivity|].
  cbn [flat_map]. rewrite length_app. unfold neighbor_result at 1.
  destruct (extract_id (fst nb)); simpl; lia.
Qed.

End FeatureStore.

(** [search_feature_store] returns at most [min(neighbor_count,
    len(neighbors))] results, each the id extracted from one of the first
    [neighbor_count] neighbors together with that neighbor's URI, in the
    neighbors' order; neighbors whose id cannot be extracted are skipped. *)
Theorem search_feature_store_results (extract_id : string -> option string)
    (neighbor_count : nat) (neighbors : list (string * string)) :
  let res := Vertex.search_feature_store extract_id neighbor_count neighbors in
  length res <= Nat.min neighbor_count (length neighbors)
  /\ res = flat_map (neighbor_result extract_id) (firstn neighbor_count neighbors).
Proof.
  intros res. subst res. unfold Vertex.search_feature_store. rewrite py_range_0_1.
  rewrite flat_map_seq_nth by lia. change (skipn 0 neighbors) with neighbors.
  fold (neighbor_result extract_id).
  assert (Hf : firstn (Nat.min neighbor_count (length neighbors)) neighbors
               = firstn neighbor_count neighbors).
  { destruct (Nat.min_spec neighbor_count (length neighbors)) as [[_ ->]|[Hle ->]];
      [reflexivity|rewrite !firstn_all2 by lia; reflexivity]. }
  rewrite Hf. split; [|reflexivity].
  etransitivity; [apply flat_map_neighbor_result_length|].
  rewrite length_firstn. lia.
Qed.
